(** * MLIR analysis management: a shallow embedding of
      [mlir/Pass/AnalysisManager.h] and the properties of its caches.

    The header defines, bottom up,
    - [detail::PreservedAnalyses], a set of [TypeID]s,
    - [detail::AnalysisConcept] / [AnalysisModel<AnalysisT>], the type-erased
      holder of one analysis object,
    - [detail::AnalysisMap], the analyses cached for one operation,
    - [detail::NestedAnalysisMap], an [AnalysisMap] with the maps of the
      nested operations,
    - [AnalysisManager], a pointer to a [NestedAnalysisMap] handed to passes,
      and [ModuleAnalysisManager], the owner of the top-level map.

    Pointers to operations and analysis classes are positive numbers, the
    [SmallPtrSet] is a [gset], each [DenseMap] a [gmap].  Code that mutates
    its object is a function from the old object to the new one; the heap
    (the next free address) and the calls received by the pass instrumentor
    are threaded through as a [World].

    [AnalysisManager::nest] is declared in the header and defined elsewhere;
    it and the calls built on it ([getChildAnalysis]) are not embedded, nor
    are the overloads that take a derived operation type. *)

From stdpp Require Import gmap strings list fin_maps.

Set Warnings "-register-all".
Set Default Proof Using "Type".

(** ** Operations, analysis classes and their [TypeID]s *)

(** [Operation *]: the identity of an IR unit. *)
Definition Operation := positive.

(** An analysis class [AnalysisT] of the program, by its identity. *)
Definition AnalysisT := positive.

(** [TypeID]: one id per type.  Besides the analysis classes the header asks
    for the id of one more type, the private [PreservedAnalyses::AllAnalysesType]. *)
Inductive TypeID :=
  | AllAnalysesType
  | TypeID_of (T : AnalysisT).

#[global] Instance TypeID_eq_dec : EqDecision TypeID.
Proof. solve_decision. Defined.

#[global] Instance TypeID_countable : Countable TypeID.
Proof.
  refine (inj_countable'
            (fun id => match id with AllAnalysesType => None | TypeID_of T => Some T end)
            (fun o => match o with None => AllAnalysesType | Some T => TypeID_of T end) _).
  by intros [].
Defined.

(** [TypeID::get<AnalysisT>()]. *)
Definition TypeID_get (T : AnalysisT) : TypeID := TypeID_of T.

(** ** [detail::PreservedAnalyses] *)

Module PreservedAnalyses.

(** The only member: [SmallPtrSet<TypeID, 2> preservedIDs]. *)
Record t := Build { preservedIDs : gset TypeID }.

(** A default-constructed set. *)
Definition fresh : t := {| preservedIDs := ∅ |}.

(** [void preserveAll() { preservedIDs.insert(TypeID::get<AllAnalysesType>()); }] *)
Definition preserveAll (pa : t) : t :=
  {| preservedIDs := {[ AllAnalysesType ]} ∪ preservedIDs pa |}.

(** [bool isAll() const { return preservedIDs.count(TypeID::get<AllAnalysesType>()); }] *)
Definition isAll (pa : t) : bool :=
  bool_decide (AllAnalysesType ∈ preservedIDs pa).

(** [bool isNone() const { return preservedIDs.empty(); }] *)
Definition isNone (pa : t) : bool :=
  bool_decide (preservedIDs pa = ∅).

(** [void preserve(TypeID id) { preservedIDs.insert(id); }] *)
Definition preserve (id : TypeID) (pa : t) : t :=
  {| preservedIDs := {[ id ]} ∪ preservedIDs pa |}.

(** [template <typename AnalysisT> void preserve()] *)
Definition preserveT (T : AnalysisT) (pa : t) : t :=
  preserve (TypeID_get T) pa.

(** [template <typename AnalysisT, typename AnalysisT2, typename... OtherAnalysesT>
    void preserve()]: the classes are preserved one after the other. *)
Fixpoint preserveTs (Ts : list AnalysisT) (pa : t) : t :=
  match Ts with
  | [] => pa
  | T :: Ts' => preserveTs Ts' (preserveT T pa)
  end.

(** [bool isPreserved(TypeID id) const { return preservedIDs.count(id); }] *)
Definition isPreserved (id : TypeID) (pa : t) : bool :=
  bool_decide (id ∈ preservedIDs pa).

(** [template <typename AnalysisT> bool isPreserved() const] *)
Definition isPreservedT (T : AnalysisT) (pa : t) : bool :=
  isPreserved (TypeID_get T) pa.

(** The mutating calls a pass can make on its set, to speak about the
    history of a set. *)
Inductive Call :=
  | CallPreserveAll
  | CallPreserve (id : TypeID).

Definition call (c : Call) (pa : t) : t :=
  match c with
  | CallPreserveAll => preserveAll pa
  | CallPreserve id => preserve id pa
  end.

(** The set after the calls [cs], made in this order. *)
Definition after (cs : list Call) (pa : t) : t :=
  foldl (fun pa c => call c pa) pa cs.

End PreservedAnalyses.

(** ** The analysis classes of the program

    What the header takes from the author of an analysis class: the class
    can be built from an operation, and it may provide a member
    [isInvalidated(const PreservedAnalyses &)].  The member is called on a
    non-const object, so it may also change the analysis it is asked about.
    [llvm::getTypeName] gives the class its printed name. *)

Class AnalysisClasses := {
  (** the analysis objects, of any class *)
  Analysis : Type;
  (** [llvm::getTypeName<AnalysisT>()] *)
  getTypeName : AnalysisT -> string;
  (** the constructor [AnalysisT(op)] *)
  construct : AnalysisT -> Operation -> Analysis;
  (** the member [isInvalidated] of the classes that provide one: its result,
      and the analysis object after the call *)
  provided_isInvalidated :
    AnalysisT -> option (Analysis -> PreservedAnalyses.t -> bool * Analysis)
}.

(** ** [analysis_impl::isInvalidated] *)

Module analysis_impl.
Section WithClasses.
Context `{AnalysisClasses}.

(** [llvm::is_detected<has_is_invalidated, AnalysisT>::value] *)
Definition has_is_invalidated (T : AnalysisT) : bool :=
  match provided_isInvalidated T with Some _ => true | None => false end.

(** The two overloads, chosen by [has_is_invalidated]:
    [return analysis.isInvalidated(pa);] when the class provides the member,
    [return !pa.isPreserved<AnalysisT>();] otherwise. *)
Definition isInvalidated (T : AnalysisT) (analysis : Analysis)
    (pa : PreservedAnalyses.t) : bool * Analysis :=
  match provided_isInvalidated T with
  | Some member => member analysis pa
  | None => (negb (PreservedAnalyses.isPreservedT T pa), analysis)
  end.

End WithClasses.
End analysis_impl.

(** ** The heap and the pass instrumentor *)

(** The address of a heap object. *)
Definition Addr := nat.

(** [PassInstrumentor *] (when not null). *)
Definition PassInstrumentor := positive.

(** What happens outside the maps: the calls the pass instrumentor receives,
    [runBeforeAnalysis(name, id, op)] and [runAfterAnalysis(name, id, op)],
    and, to place them in time, the construction of an analysis model of
    class [T] from [op] at address [a]. *)
Inductive Event :=
  | RunBeforeAnalysis (name : string) (id : TypeID) (op : Operation)
  | Constructed (T : AnalysisT) (op : Operation) (a : Addr)
  | RunAfterAnalysis (name : string) (id : TypeID) (op : Operation).

(** The next address [new] hands out, and the events so far, oldest first. *)
Record World := MkWorld { next_addr : Addr; events : list Event }.

Definition emit (e : Event) (w : World) : World :=
  {| next_addr := next_addr w; events := events w ++ [e] |}.

(** [if (pi) pi->run...Analysis(...)] *)
Definition notify (pi : option PassInstrumentor) (e : Event) (w : World) : World :=
  match pi with
  | Some _ => emit e w
  | None => w
  end.

(** ** [detail::AnalysisConcept] and [detail::AnalysisModel] *)

Module AnalysisModel.
Section WithClasses.
Context `{AnalysisClasses}.

(** An [AnalysisModel<AnalysisT>] on the heap: its class (which fixes its
    virtual table), its address, and the member [AnalysisT analysis]. *)
Record t := Build { class : AnalysisT; addr : Addr; analysis : Analysis }.

(** [bool isInvalidated(const PreservedAnalyses &pa) final
      { return analysis_impl::isInvalidated(analysis, pa); }]
    with the model after the call. *)
Definition isInvalidated (m : t) (pa : PreservedAnalyses.t) : bool * t :=
  let '(r, analysis') := analysis_impl.isInvalidated (class m) (analysis m) pa in
  (r, {| class := class m; addr := addr m; analysis := analysis' |}).

(** [std::make_unique<AnalysisModel<AnalysisT>>(op)]: a new heap object whose
    [analysis] is [AnalysisT(op)]. *)
Definition make_unique (T : AnalysisT) (op : Operation) (w : World) : t * World :=
  let a := next_addr w in
  ({| class := T; addr := a; analysis := construct T op |},
   {| next_addr := S a; events := events w ++ [Constructed T op a] |}).

End WithClasses.
End AnalysisModel.

(** An [AnalysisT &]: the address of the model that holds the analysis, and
    the analysis found there. *)
Definition AnalysisRef `{AnalysisClasses} : Type := (Addr * Analysis)%type.

(** ** [detail::AnalysisMap] *)

(** [StringRef::consume_front]: drops [prefix] from the front of [name] when
    it is there, and says whether it was. *)
Fixpoint drop_front (prefix name : string) : option string :=
  match prefix with
  | EmptyString => Some name
  | String a prefix' =>
      match name with
      | EmptyString => None
      | String b name' =>
          if Ascii.eqb a b then drop_front prefix' name' else None
      end
  end.

Definition consume_front (prefix name : string) : bool * string :=
  match drop_front prefix name with
  | Some rest => (true, rest)
  | None => (false, name)
  end.

Module AnalysisMap.
Section WithClasses.
Context `{AnalysisClasses}.

(** [Operation *ir; ConceptMap analyses;] with
    [ConceptMap = DenseMap<TypeID, std::unique_ptr<AnalysisConcept>>]. *)
Record t := Build { ir : Operation; analyses : gmap TypeID AnalysisModel.t }.

(** [explicit AnalysisMap(Operation *ir) : ir(ir) {}] *)
Definition create (op : Operation) : t := {| ir := op; analyses := ∅ |}.

(** [getAnalysisName<AnalysisT>()]:
    [if (!name.consume_front("mlir::")) name.consume_front("(anonymous namespace)::");] *)
Definition getAnalysisName (T : AnalysisT) : string :=
  let '(consumed, name) := consume_front "mlir::" (getTypeName T) in
  if consumed then name
  else snd (consume_front "(anonymous namespace)::" name).

(** The reference [static_cast<AnalysisModel<AnalysisT> &>( *ptr).analysis]. *)
Definition ref (m : AnalysisModel.t) : AnalysisRef :=
  (AnalysisModel.addr m, AnalysisModel.analysis m).

(** [getAnalysisImpl<AnalysisT, OpT>(pi, op)].  [try_emplace(id)] finds the
    entry of [id] or adds one; only in the second case ([wasInserted]) the
    instrumentor is told, the model is made and stored in the entry, and the
    instrumentor is told again.  Nothing reads the map between
    [try_emplace] and the assignment to the entry. *)
Definition getAnalysisImpl (T : AnalysisT) (pi : option PassInstrumentor)
    (op : Operation) (am : t) (w : World) : AnalysisRef * t * World :=
  let id := TypeID_get T in
  match analyses am !! id with
  | Some m => (ref m, am, w)
  | None =>
      let w1 := notify pi (RunBeforeAnalysis (getAnalysisName T) id (ir am)) w in
      let '(m, w2) := AnalysisModel.make_unique T op w1 in
      let am' := {| ir := ir am; analyses := <[ id := m ]> (analyses am) |} in
      let w3 := notify pi (RunAfterAnalysis (getAnalysisName T) id (ir am)) w2 in
      (ref m, am', w3)
  end.

(** [getAnalysis<AnalysisT>(pi)]: [return getAnalysisImpl<AnalysisT, Operation *>(pi, ir);] *)
Definition getAnalysis (T : AnalysisT) (pi : option PassInstrumentor)
    (am : t) (w : World) : AnalysisRef * t * World :=
  getAnalysisImpl T pi (ir am) am w.

(** [getCachedAnalysis<AnalysisT>() const]: [llvm::None] when [find] reaches
    [end()], the analysis of the entry otherwise. *)
Definition getCachedAnalysis (T : AnalysisT) (am : t) : option AnalysisRef :=
  match analyses am !! TypeID_get T with
  | None => None
  | Some m => Some (ref m)
  end.

(** [Operation *getOperation() const { return ir; }] *)
Definition getOperation (am : t) : Operation := ir am.

(** [void clear() { analyses.clear(); }] *)
Definition clear (am : t) : t := {| ir := ir am; analyses := ∅ |}.

(** One turn of the loop of [invalidate]: the entry is asked, and erased
    when it answers that it is invalidated. *)
Definition sweep (pa : PreservedAnalyses.t) (m : AnalysisModel.t) : option AnalysisModel.t :=
  let '(invalidated, m') := AnalysisModel.isInvalidated m pa in
  if invalidated then None else Some m'.

(** [void invalidate(const PreservedAnalyses &pa)]: every entry is visited
    once; an entry only looks at [pa] and at its own analysis, so the order
    of the visit does not show. *)
Definition invalidate (pa : PreservedAnalyses.t) (am : t) : t :=
  {| ir := ir am; analyses := omap (sweep pa) (analyses am) |}.

End WithClasses.
End AnalysisMap.

(** ** [detail::NestedAnalysisMap]

    A map owns the maps of its children ([std::unique_ptr]), so the maps of
    a module form a tree, and a pointer to one of them is the path that leads
    to it from the top-level map.  [parentOrInstrumentor] is a parent pointer
    in every map but the top-level one, where it is the pass instrumentor
    (or null): the parent of a map is one step up its path, and the
    instrumentor is kept with the top-level map, in [ModuleAnalysisManager]. *)

Module NestedAnalysisMap.
Section WithClasses.
Context `{AnalysisClasses}.

(** [DenseMap<Operation *, std::unique_ptr<NestedAnalysisMap>> childAnalyses;
    detail::AnalysisMap analyses;] *)
Inductive t := Build {
  childAnalyses : gmap Operation t;
  analyses : AnalysisMap.t
}.

(** [NestedAnalysisMap(Operation *op, ...) : analyses(op), ...] *)
Definition create (op : Operation) : t :=
  {| childAnalyses := ∅; analyses := AnalysisMap.create op |}.

(** [Operation *getOperation() const { return analyses.getOperation(); }] *)
Definition getOperation (n : t) : Operation :=
  AnalysisMap.getOperation (analyses n).

(** Modelled from the spec: [void invalidate(const PreservedAnalyses &pa)] is
    declared in the header and defined elsewhere.  The spec: "invalidate this
    node's own PerNodeCache only; the decision to cascade into children is
    the caller's (manager/driver) responsibility, not automatic". *)
Definition invalidate (pa : PreservedAnalyses.t) (n : t) : t :=
  {| childAnalyses := childAnalyses n;
     analyses := AnalysisMap.invalidate pa (analyses n) |}.

(** The map the path [p] leads to from [n], if there is one. *)
Fixpoint lookup_node (p : list Operation) (n : t) : option t :=
  match p with
  | [] => Some n
  | op :: p' =>
      match childAnalyses n !! op with
      | Some child => lookup_node p' child
      | None => None
      end
  end.

(** The tree after the map at the end of [p] was changed by [f]. *)
Fixpoint update_node (f : t -> t) (p : list Operation) (n : t) : t :=
  match p with
  | [] => f n
  | op :: p' =>
      {| childAnalyses := alter (update_node f p') op (childAnalyses n);
         analyses := analyses n |}
  end.

(** An assignment to the member [analyses]. *)
Definition set_analyses (am : AnalysisMap.t) (n : t) : t :=
  {| childAnalyses := childAnalyses n; analyses := am |}.

End WithClasses.
End NestedAnalysisMap.

(** ** [ModuleAnalysisManager] *)

Module ModuleAnalysisManager.
Section WithClasses.
Context `{AnalysisClasses}.

(** [detail::NestedAnalysisMap analyses;] and the [PassInstrumentor *] its
    [parentOrInstrumentor] holds. *)
Record t := Build {
  analyses : NestedAnalysisMap.t;
  passInstrumentor : option PassInstrumentor
}.

(** [ModuleAnalysisManager(Operation *op, PassInstrumentor *passInstrumentor)
      : analyses(op, passInstrumentor) {}] *)
Definition create (op : Operation) (pi : option PassInstrumentor) : t :=
  {| analyses := NestedAnalysisMap.create op; passInstrumentor := pi |}.

End WithClasses.
End ModuleAnalysisManager.

(** ** The program state and the outcome of a call *)

(** The operations of the IR with their parents, [Operation::getParentOp()]
    (null for a top-level operation). *)
Class OperationTree := { getParentOp : Operation -> option Operation }.

(** The analysis maps of a module and the world around them. *)
Record State `{AnalysisClasses} := MkState {
  mam : ModuleAnalysisManager.t;
  world : World
}.

(** A call can stop the program: an [assert] fails, or the manager points
    to a map that has been destroyed. *)
Inductive Failure :=
  | AssertionFailure
  | DanglingManager.

Inductive Outcome `{AnalysisClasses} (A : Type) :=
  | Returns (a : A) (s : State)
  | Fails (f : Failure).
Arguments Returns {_ _} a s.
Arguments Fails {_ _} f.

(** Calls that read and change the state, or stop. *)
Definition Run `{AnalysisClasses} (A : Type) : Type := State -> Outcome A.

Definition ret `{AnalysisClasses} {A} (a : A) : Run A := fun s => Returns a s.

Definition bind `{AnalysisClasses} {A B} (c : Run A) (k : A -> Run B) : Run B :=
  fun s =>
    match c s with
    | Returns a s' => k a s'
    | Fails f => Fails f
    end.

Definition fail `{AnalysisClasses} {A} (f : Failure) : Run A := fun _ => Fails f.

(** [assert(cond)] *)
Definition assert `{AnalysisClasses} (cond : bool) : Run unit :=
  if cond then ret tt else fail AssertionFailure.

Declare Scope run_scope.
Delimit Scope run_scope with run.
Notation "'let*' x ':=' c 'in' k" := (bind c (fun x => k))
  (at level 10, x name, c at level 100, k at level 200) : run_scope.
Open Scope run_scope.

(** ** [AnalysisManager] *)

Module AnalysisManager.
Section WithClasses.
Context `{AnalysisClasses} `{OperationTree}.

(** [detail::NestedAnalysisMap *impl;]: the path from the top-level map. *)
Record t := Build { impl : list Operation }.

(** [ModuleAnalysisManager::operator AnalysisManager()
      { return AnalysisManager(&analyses); }] *)
Definition of_module : t := {| impl := [] |}.

(** The map [impl] points to. *)
Definition deref (am : t) : Run NestedAnalysisMap.t :=
  fun s =>
    match NestedAnalysisMap.lookup_node (impl am) (ModuleAnalysisManager.analyses (mam s)) with
    | Some n => Returns n s
    | None => Fails DanglingManager
    end.

(** A change [f] made through [impl]. *)
Definition modify (am : t) (f : NestedAnalysisMap.t -> NestedAnalysisMap.t) : Run unit :=
  fun s =>
    Returns tt
      {| mam :=
           {| ModuleAnalysisManager.analyses :=
                NestedAnalysisMap.update_node f (impl am)
                  (ModuleAnalysisManager.analyses (mam s));
              ModuleAnalysisManager.passInstrumentor :=
                ModuleAnalysisManager.passInstrumentor (mam s) |};
         world := world s |}.

(** [PassInstrumentor *getPassInstrumentor() const
      { return impl->getPassInstrumentor(); }]:
    [NestedAnalysisMap::getPassInstrumentor] follows [getParent()] up to the
    top-level map and returns the instrumentor found there. *)
Definition getPassInstrumentor (am : t) : Run (option PassInstrumentor) :=
  let* _ := deref am in
  fun s => Returns (ModuleAnalysisManager.passInstrumentor (mam s)) s.

(** A method of [AnalysisMap] that needs the world, run on the member
    [analyses] of a nested map. *)
Definition on_analyses {A} (am : t)
    (method : AnalysisMap.t -> World -> A * AnalysisMap.t * World) : Run A :=
  let* n := deref am in
  let* r :=
    (fun s =>
       let '(a, analyses', w') := method (NestedAnalysisMap.analyses n) (world s) in
       Returns (a, analyses') {| mam := mam s; world := w' |}) in
  let* _ := modify am (NestedAnalysisMap.set_analyses (snd r)) in
  ret (fst r).

(** [template <typename AnalysisT> AnalysisT &getAnalysis()
      { return impl->analyses.getAnalysis<AnalysisT>(getPassInstrumentor()); }] *)
Definition getAnalysis (T : AnalysisT) (am : t) : Run AnalysisRef :=
  let* pi := getPassInstrumentor am in
  on_analyses am (AnalysisMap.getAnalysis T pi).

(** [getCachedAnalysis<AnalysisT>() const
      { return impl->analyses.getCachedAnalysis<AnalysisT>(); }] *)
Definition getCachedAnalysis (T : AnalysisT) (am : t) : Run (option AnalysisRef) :=
  let* n := deref am in
  ret (AnalysisMap.getCachedAnalysis T (NestedAnalysisMap.analyses n)).

(** [getCachedChildAnalysis<AnalysisT>(Operation *op) const]:
    [assert(op->getParentOp() == impl->getOperation());] then
    [llvm::None] when [impl->childAnalyses.find(op)] reaches [end()], and
    [it->second->analyses.getCachedAnalysis<AnalysisT>()] otherwise. *)
Definition getCachedChildAnalysis (T : AnalysisT) (op : Operation) (am : t)
    : Run (option AnalysisRef) :=
  let* n := deref am in
  let* _ :=
    assert (bool_decide (getParentOp op = Some (NestedAnalysisMap.getOperation n))) in
  match NestedAnalysisMap.childAnalyses n !! op with
  | None => ret None
  | Some child =>
      ret (AnalysisMap.getCachedAnalysis T (NestedAnalysisMap.analyses child))
  end.

(** The loop of [getCachedParentAnalysis], from the map at the end of the
    reversed path [cur]: [getParent()] is null at the top-level map and the
    map one step up the path otherwise.
    [while (auto *parentAM = curParent->getParent()) {
       if (parentAM->getOperation() == parentOp)
         return parentAM->analyses.getCachedAnalysis<AnalysisT>();
       curParent = parentAM; }
     return None;] *)
Fixpoint getCachedParentAnalysis_loop (T : AnalysisT) (parentOp : Operation)
    (cur : list Operation) : Run (option AnalysisRef) :=
  match cur with
  | [] => ret None
  | _ :: parent =>
      let* parentAM := deref {| impl := rev parent |} in
      if bool_decide (NestedAnalysisMap.getOperation parentAM = parentOp)
      then ret (AnalysisMap.getCachedAnalysis T (NestedAnalysisMap.analyses parentAM))
      else getCachedParentAnalysis_loop T parentOp parent
  end.

(** [getCachedParentAnalysis<AnalysisT>(Operation *parentOp) const], with
    [curParent = impl] at the start. *)
Definition getCachedParentAnalysis (T : AnalysisT) (parentOp : Operation) (am : t)
    : Run (option AnalysisRef) :=
  let* _ := deref am in
  getCachedParentAnalysis_loop T parentOp (rev (impl am)).

(** [void invalidate(const PreservedAnalyses &pa) { impl->invalidate(pa); }] *)
Definition invalidate (pa : PreservedAnalyses.t) (am : t) : Run unit :=
  let* _ := deref am in
  modify am (NestedAnalysisMap.invalidate pa).

(** [void clear() { impl->analyses.clear(); impl->childAnalyses.clear(); }] *)
Definition clear (am : t) : Run unit :=
  let* _ := deref am in
  let* _ :=
    modify am (fun n => NestedAnalysisMap.set_analyses
                          (AnalysisMap.clear (NestedAnalysisMap.analyses n)) n) in
  modify am (fun n => {| NestedAnalysisMap.childAnalyses := ∅;
                         NestedAnalysisMap.analyses := NestedAnalysisMap.analyses n |}).

End WithClasses.
End AnalysisManager.

(** ** Sequences of calls

    A pass, or the driver between two passes, makes calls on the analysis
    managers it holds.  [step] runs one call, [run] a sequence of them; a
    call that stops the program ends the sequence. *)

Section Calls.
Context `{AnalysisClasses} `{OperationTree}.

Inductive Request :=
  | GetAnalysis (T : AnalysisT) (am : AnalysisManager.t)
  | GetCachedAnalysis (T : AnalysisT) (am : AnalysisManager.t)
  | GetCachedChildAnalysis (T : AnalysisT) (op : Operation) (am : AnalysisManager.t)
  | Invalidate (pa : PreservedAnalyses.t) (am : AnalysisManager.t)
  | Clear (am : AnalysisManager.t).

Inductive Response :=
  | Reference (r : AnalysisRef)
  | Cached (r : option AnalysisRef)
  | Done.

Definition step (req : Request) : Run Response :=
  match req with
  | GetAnalysis T am =>
      let* r := AnalysisManager.getAnalysis T am in ret (Reference r)
  | GetCachedAnalysis T am =>
      let* r := AnalysisManager.getCachedAnalysis T am in ret (Cached r)
  | GetCachedChildAnalysis T op am =>
      let* r := AnalysisManager.getCachedChildAnalysis T op am in ret (Cached r)
  | Invalidate pa am =>
      let* _ := AnalysisManager.invalidate pa am in ret Done
  | Clear am =>
      let* _ := AnalysisManager.clear am in ret Done
  end.

Fixpoint run (reqs : list Request) (s : State) : State :=
  match reqs with
  | [] => s
  | req :: reqs' =>
      match step req s with
      | Returns _ s' => run reqs' s'
      | Fails _ => s
      end
  end.

(** The calls other than [invalidate] and [clear]. *)
Definition is_query (req : Request) : bool :=
  match req with
  | GetAnalysis _ _ | GetCachedAnalysis _ _ | GetCachedChildAnalysis _ _ _ => true
  | Invalidate _ _ | Clear _ => false
  end.

(** The analyses constructed in a stretch of events, oldest first. *)
Fixpoint constructions (es : list Event) : list (AnalysisT * Operation * Addr) :=
  match es with
  | [] => []
  | Constructed T op a :: es' => (T, op, a) :: constructions es'
  | _ :: es' => constructions es'
  end.

(** The two notifications of the instrumentor around one construction. *)
Definition instrumented (c : AnalysisT * Operation * Addr) : list Event :=
  let '(T, op, a) := c in
  [ RunBeforeAnalysis (AnalysisMap.getAnalysisName T) (TypeID_get T) op;
    Constructed T op a;
    RunAfterAnalysis (AnalysisMap.getAnalysisName T) (TypeID_get T) op ].

(** The events of [s'] that [s] does not have yet. *)
Definition events_since (s s' : State) : list Event :=
  drop (length (events (world s))) (events (world s')).

(** The entry of [id] in the analysis map the path [p] leads to. *)
Definition entry_at (p : list Operation) (id : TypeID) (s : State)
    : option AnalysisModel.t :=
  match NestedAnalysisMap.lookup_node p (ModuleAnalysisManager.analyses (mam s)) with
  | Some n => AnalysisMap.analyses (NestedAnalysisMap.analyses n) !! id
  | None => None
  end.

(** The analysis map the path [p] leads to. *)
Definition analyses_at (p : list Operation) (s : State) : option AnalysisMap.t :=
  NestedAnalysisMap.analyses <$>
    NestedAnalysisMap.lookup_node p (ModuleAnalysisManager.analyses (mam s)).

(** The entries of [id] among all the entries of an analysis map. *)
Definition entries_of (id : TypeID) (am : AnalysisMap.t)
    : list (TypeID * AnalysisModel.t) :=
  filter (fun kv => kv.1 = id) (map_to_list (AnalysisMap.analyses am)).

(** The top-level map of a state. *)
Definition root (s : State) : NestedAnalysisMap.t :=
  ModuleAnalysisManager.analyses (mam s).

(** The state with another tree of maps and another world. *)
Definition with_root (t : NestedAnalysisMap.t) (w : World) (s : State) : State :=
  {| mam := {| ModuleAnalysisManager.analyses := t;
               ModuleAnalysisManager.passInstrumentor :=
                 ModuleAnalysisManager.passInstrumentor (mam s) |};
     world := w |}.

(** The two statements of [clear] together. *)
Definition cleared (n : NestedAnalysisMap.t) : NestedAnalysisMap.t :=
  {| NestedAnalysisMap.childAnalyses := ∅;
     NestedAnalysisMap.analyses := AnalysisMap.clear (NestedAnalysisMap.analyses n) |}.

(** The model [getAnalysis<T>] makes when it finds none. *)
Definition constructed (T : AnalysisT) (am : AnalysisMap.t) (w : World)
    : AnalysisModel.t :=
  {| AnalysisModel.class := T; AnalysisModel.addr := next_addr w;
     AnalysisModel.analysis := construct T (AnalysisMap.ir am) |}.

(** The classes whose own [isInvalidated] answers "not invalidated" to every
    set with [isAll()]. *)
Definition respects_isAll (T : AnalysisT) : Prop :=
  exists member,
    provided_isInvalidated T = Some member
    /\ forall analysis pa,
         PreservedAnalyses.isAll pa = true -> (member analysis pa).1 = false.

(** An [AnalysisModel<T>] is stored under the id of [T]. *)
Definition holds (am : AnalysisMap.t) (T : AnalysisT) (m : AnalysisModel.t) : Prop :=
  AnalysisMap.analyses am !! TypeID_get T = Some m /\ AnalysisModel.class m = T.

End Calls.

(** ** A small program to run the definitions on

    Three analysis classes: [mlir::Liveness] (class 1) has no [isInvalidated]
    of its own; [DominatorTree] (class 2, in an anonymous namespace) is
    invalidated unless the analysis of class 3, the CFG, is preserved;
    [mlir::CallGraph] (class 4) looks at [isAll()] first.  An analysis object
    is the pair of its class and of the operation it was built for.  The
    module is operation 1, its children are the operations 2 and 3. *)

Module Example.

Definition Liveness : AnalysisT := 1%positive.
Definition DominatorTree : AnalysisT := 2%positive.
Definition CFG : AnalysisT := 3%positive.
Definition CallGraph : AnalysisT := 4%positive.

#[local] Open Scope string_scope.

#[export] Instance classes : AnalysisClasses := {|
  Analysis := AnalysisT * Operation;
  getTypeName T :=
    match T with
    | 1%positive => "mlir::Liveness"
    | 2%positive => "(anonymous namespace)::DominatorTree"
    | 3%positive => "mlir::CFG"
    | _ => "mlir::CallGraph"
    end;
  construct T op := (T, op);
  provided_isInvalidated T :=
    match T with
    | 2%positive =>
        Some (fun a pa => (negb (PreservedAnalyses.isPreservedT CFG pa), a))
    | 4%positive =>
        Some (fun a pa =>
                (negb (PreservedAnalyses.isAll pa)
                 && negb (PreservedAnalyses.isPreservedT CallGraph pa), a))
    | _ => None
    end
|}.

#[export] Instance operations : OperationTree := {|
  getParentOp op :=
    match op with
    | 1%positive => None
    | _ => Some 1%positive
    end
|}.

Definition module : Operation := 1%positive.
Definition func : Operation := 2%positive.

(** A fresh module analysis manager with an instrumentor, in a fresh world. *)
Definition start : State :=
  {| mam := ModuleAnalysisManager.create module (Some 1%positive);
     world := {| next_addr := 0; events := [] |} |}.

(** The top-level map with [Liveness] cached, and a map for [func] with
    [Liveness] cached too. *)
Definition populated : State :=
  let liveness op a :=
    {| AnalysisModel.class := Liveness; AnalysisModel.addr := a;
       AnalysisModel.analysis := (Liveness, op) |} in
  {| mam :=
       {| ModuleAnalysisManager.analyses :=
            {| NestedAnalysisMap.childAnalyses :=
                 {[ func :=
                      {| NestedAnalysisMap.childAnalyses := ∅;
                         NestedAnalysisMap.analyses :=
                           {| AnalysisMap.ir := func;
                              AnalysisMap.analyses :=
                                {[ TypeID_get Liveness := liveness func 1 ]} |} |} ]};
               NestedAnalysisMap.analyses :=
                 {| AnalysisMap.ir := module;
                    AnalysisMap.analyses :=
                      {[ TypeID_get Liveness := liveness module 0 ]} |} |};
          ModuleAnalysisManager.passInstrumentor := Some 1%positive |};
     world := {| next_addr := 2; events := [] |} |}.

(** [start] after [getAnalysis<Liveness>()] on the manager of the module. *)
Definition computed : State :=
  run [GetAnalysis Liveness AnalysisManager.of_module] start.

End Example.

(** ** Sequences of calls on the analyses of one operation *)

Section MapCalls.
Context `{AnalysisClasses}.

(** The calls of [AnalysisMap]. *)
Inductive MapCall :=
  | MapGetAnalysis (T : AnalysisT)
  | MapGetCachedAnalysis (T : AnalysisT)
  | MapInvalidate (pa : PreservedAnalyses.t)
  | MapClear.

(** One call with the instrumentor [pi], on a map in a world. *)
Definition map_step (pi : option PassInstrumentor) (c : MapCall)
    (st : AnalysisMap.t * World) : AnalysisMap.t * World :=
  match c with
  | MapGetAnalysis T =>
      let '(_, am', w') := AnalysisMap.getAnalysis T pi st.1 st.2 in (am', w')
  | MapGetCachedAnalysis _ => st
  | MapInvalidate pa => (AnalysisMap.invalidate pa st.1, st.2)
  | MapClear => (AnalysisMap.clear st.1, st.2)
  end.

Definition map_run (pi : option PassInstrumentor) (cs : list MapCall)
    (st : AnalysisMap.t * World) : AnalysisMap.t * World :=
  foldl (fun st c => map_step pi c st) st cs.

(** Every entry is a model of the class whose id it is stored under: what
    the [static_cast] of [getCachedAnalysis] and [getAnalysisImpl] counts on. *)
Definition keyed (am : AnalysisMap.t) : Prop :=
  forall id m,
    AnalysisMap.analyses am !! id = Some m -> id = TypeID_get (AnalysisModel.class m).


(** No class of the map has an [isInvalidated] of its own. *)
Definition all_default (am : AnalysisMap.t) : Prop :=
  forall id m,
    AnalysisMap.analyses am !! id = Some m ->
    provided_isInvalidated (AnalysisModel.class m) = None.

(** The calls the instrumentor receives. *)
Definition is_notification (e : Event) : bool :=
  match e with
  | RunBeforeAnalysis _ _ _ | RunAfterAnalysis _ _ _ => true
  | Constructed _ _ _ => false
  end.

End MapCalls.

(** * Properties *)

(** ** Preserved sets *)

Section PreservedAnalysesFacts.
Import PreservedAnalyses.

Lemma elem_of_preserveAll id pa :
  id ∈ preservedIDs (preserveAll pa) <-> id = AllAnalysesType \/ id ∈ preservedIDs pa.
Proof. unfold preserveAll; simpl. set_solver. Qed.

Lemma elem_of_preserve id id' pa :
  id ∈ preservedIDs (preserve id' pa) <-> id = id' \/ id ∈ preservedIDs pa.
Proof. unfold preserve; simpl. set_solver. Qed.

Lemma elem_of_call id c pa :
  id ∈ preservedIDs (call c pa) <->
  (c = CallPreserveAll /\ id = AllAnalysesType) \/ c = CallPreserve id
  \/ id ∈ preservedIDs pa.
Proof.
  destruct c as [|id']; cbn [call].
  - rewrite elem_of_preserveAll. intuition congruence.
  - rewrite elem_of_preserve. intuition congruence.
Qed.

(** What a set holds after a sequence of calls: what it held before, the ids
    given to [preserve], and the id of [AllAnalysesType] when [preserveAll]
    was among the calls. *)
Lemma elem_of_after cs : forall id pa,
  id ∈ preservedIDs (after cs pa) <->
  id ∈ preservedIDs pa \/ CallPreserve id ∈ cs
  \/ (id = AllAnalysesType /\ CallPreserveAll ∈ cs).
Proof.
  induction cs as [|c cs IH]; intros id pa.
  - simpl. split; [auto|].
    intros [?|[Hin|[_ Hin]]]; [done| |]; by apply elem_of_nil in Hin.
  - change (after (c :: cs) pa) with (after cs (call c pa)).
    rewrite IH, elem_of_call, !elem_of_cons. intuition (subst; auto).
Qed.

Lemma isPreserved_true id pa : isPreserved id pa = true <-> id ∈ preservedIDs pa.
Proof. unfold isPreserved. apply bool_decide_eq_true. Qed.

Lemma isPreserved_false id pa : isPreserved id pa = false <-> id ∉ preservedIDs pa.
Proof. unfold isPreserved. apply bool_decide_eq_false. Qed.

Lemma isAll_true pa : isAll pa = true <-> AllAnalysesType ∈ preservedIDs pa.
Proof. unfold isAll. apply bool_decide_eq_true. Qed.

Lemma isNone_true pa : isNone pa = true <-> preservedIDs pa = ∅.
Proof. unfold isNone. apply bool_decide_eq_true. Qed.

Lemma isNone_false pa id : id ∈ preservedIDs pa -> isNone pa = false.
Proof.
  intros Hin. unfold isNone. apply bool_decide_eq_false. set_solver.
Qed.

(** C2, as the spec words it, fails: after [preserveAll()] on a fresh set
    [isAll()] is true, and [isPreserved] of the id of an analysis class that
    was not given to [preserve] is false. *)
Lemma isPreserved_ignores_preserveAll :
  isAll (preserveAll fresh) = true
  /\ isPreserved (TypeID_get Example.Liveness) (preserveAll fresh) = false.
Proof. split; vm_compute; reflexivity. Qed.

(** C2, amended: on a set that had [preserveAll()] called on it (among any
    other calls, starting from a fresh set), [isAll()] returns true, and
    [isPreserved(id)] returns true exactly for the ids that were given to
    [preserve] and for the id of [AllAnalysesType]; it only looks for [id]
    in the set. *)
Theorem isPreserved_after_preserveAll cs id :
  CallPreserveAll ∈ cs ->
  isAll (after cs fresh) = true
  /\ (isPreserved id (after cs fresh) = true <->
      CallPreserve id ∈ cs \/ id = AllAnalysesType).
Proof.
  intros Hall. split.
  - apply isAll_true, elem_of_after. auto.
  - rewrite isPreserved_true, elem_of_after. simpl.
    split.
    + intros [Hin|[?|[? _]]]; [by apply not_elem_of_empty in Hin|auto..].
    + intros [?|?]; auto.
Qed.

Lemma isPreserved_after_preserveAll_witness :
  isAll (after [CallPreserve (TypeID_get Example.CFG); CallPreserveAll] fresh) = true
  /\ (isPreserved (TypeID_get Example.Liveness)
        (after [CallPreserve (TypeID_get Example.CFG); CallPreserveAll] fresh) = true <->
      CallPreserve (TypeID_get Example.Liveness)
        ∈ [CallPreserve (TypeID_get Example.CFG); CallPreserveAll]
      \/ TypeID_get Example.Liveness = AllAnalysesType).
Proof.
  apply (isPreserved_after_preserveAll
           [CallPreserve (TypeID_get Example.CFG); CallPreserveAll]
           (TypeID_get Example.Liveness)).
  apply elem_of_cons; right. apply elem_of_cons; left. reflexivity.
Defined.

(** C9: [isNone()] is true on a fresh set, false after [preserve(id)] and
    after [preserveAll()], and so, on a set built from a fresh one, true if
    and only if neither has been called. *)
Theorem isNone_iff_nothing_called :
  isNone fresh = true
  /\ (forall id pa, isNone (preserve id pa) = false)
  /\ (forall pa, isNone (preserveAll pa) = false)
  /\ (forall cs, isNone (after cs fresh) = true <-> cs = []).
Proof.
  split; [|split; [|split]].
  - apply isNone_true. reflexivity.
  - intros id pa. apply (isNone_false _ id), elem_of_preserve. auto.
  - intros pa. apply (isNone_false _ AllAnalysesType), elem_of_preserveAll. auto.
  - intros cs. split.
    + intros Hnone. destruct cs as [|c cs]; [reflexivity|].
      assert (exists id, id ∈ preservedIDs (after (c :: cs) fresh)) as [id Hid].
      { destruct c as [|id].
        - exists AllAnalysesType. apply elem_of_after.
          right; right. split; [done|]. apply elem_of_cons; auto.
        - exists id. apply elem_of_after. right; left. apply elem_of_cons; auto. }
      rewrite (isNone_false _ id Hid) in Hnone. discriminate.
    + intros ->. apply isNone_true. reflexivity.
Qed.

End PreservedAnalysesFacts.

(** ** The analyses of one operation: invalidation *)

Section InvalidateFacts.
Context `{AnalysisClasses}.

(** An analysis model that is asked by the default [isInvalidated] answers
    with its own id, and is not changed. *)
Lemma isInvalidated_default m pa :
  provided_isInvalidated (AnalysisModel.class m) = None ->
  AnalysisModel.isInvalidated m pa
  = (negb (PreservedAnalyses.isPreservedT (AnalysisModel.class m) pa), m).
Proof.
  intros Hnone. unfold AnalysisModel.isInvalidated, analysis_impl.isInvalidated.
  rewrite Hnone. by destruct m.
Qed.

Lemma sweep_default m pa :
  provided_isInvalidated (AnalysisModel.class m) = None ->
  AnalysisMap.sweep pa m
  = if PreservedAnalyses.isPreservedT (AnalysisModel.class m) pa then Some m else None.
Proof.
  intros Hnone. unfold AnalysisMap.sweep. rewrite (isInvalidated_default _ _ Hnone).
  by destruct (PreservedAnalyses.isPreservedT _ _).
Qed.

(** A model keeps its class and its address when it is asked. *)
Lemma isInvalidated_same_object m pa :
  AnalysisModel.class (AnalysisModel.isInvalidated m pa).2 = AnalysisModel.class m
  /\ AnalysisModel.addr (AnalysisModel.isInvalidated m pa).2 = AnalysisModel.addr m.
Proof.
  unfold AnalysisModel.isInvalidated.
  by destruct (analysis_impl.isInvalidated _ _ _).
Qed.

Lemma sweep_Some m m' pa :
  AnalysisMap.sweep pa m = Some m' ->
  AnalysisModel.class m' = AnalysisModel.class m
  /\ AnalysisModel.addr m' = AnalysisModel.addr m.
Proof.
  unfold AnalysisMap.sweep.
  pose proof (isInvalidated_same_object m pa) as Hsame.
  destruct (AnalysisModel.isInvalidated m pa) as [[] m'']; [done|].
  intros [= <-]. exact Hsame.
Qed.

(** [invalidate], entry by entry. *)
Lemma lookup_invalidate pa am id :
  AnalysisMap.analyses (AnalysisMap.invalidate pa am) !! id
  = AnalysisMap.analyses am !! id ≫= AnalysisMap.sweep pa.
Proof. unfold AnalysisMap.invalidate; simpl. apply lookup_omap. Qed.

(** C1, amended: with a set that had [preserveAll()] called on it,
    [AnalysisMap::invalidate] keeps the model of every class whose own
    [isInvalidated] respects [isAll()] (the same object of the same class is
    still stored under its id), and it keeps a model of a class with the
    default [isInvalidated] exactly when the id of that class is itself in
    the set, unchanged; otherwise it is erased. *)
Theorem invalidate_after_preserveAll am pa id m :
  PreservedAnalyses.isAll pa = true ->
  AnalysisMap.analyses am !! id = Some m ->
  (respects_isAll (AnalysisModel.class m) ->
   exists m',
     AnalysisMap.analyses (AnalysisMap.invalidate pa am) !! id = Some m'
     /\ AnalysisModel.addr m' = AnalysisModel.addr m
     /\ AnalysisModel.class m' = AnalysisModel.class m)
  /\ (provided_isInvalidated (AnalysisModel.class m) = None ->
      AnalysisMap.analyses (AnalysisMap.invalidate pa am) !! id
      = if PreservedAnalyses.isPreservedT (AnalysisModel.class m) pa
        then Some m else None).
Proof.
  intros Hall Hm. rewrite lookup_invalidate, Hm. simpl. split.
  - intros (member & Hmember & Hrespects).
    specialize (Hrespects (AnalysisModel.analysis m) pa Hall).
    pose proof (isInvalidated_same_object m pa) as [Hclass Haddr].
    unfold AnalysisMap.sweep.
    unfold AnalysisModel.isInvalidated, analysis_impl.isInvalidated in *.
    rewrite Hmember in *.
    destruct (member (AnalysisModel.analysis m) pa) as [r a']; simpl in *.
    subst r. eauto.
  - apply sweep_default.
Qed.

(** C5: an analysis of a class [T] without [isInvalidated] of its own that is
    cached: after [invalidate(pa)], [getCachedAnalysis<T>()] returns
    [llvm::None] when [pa.isPreserved<T>()] is false, and the analysis it
    returned before, at the same address, when it is true. *)
Theorem default_invalidation am pa T m :
  provided_isInvalidated T = None ->
  holds am T m ->
  AnalysisMap.getCachedAnalysis T am = Some (AnalysisMap.ref m)
  /\ (PreservedAnalyses.isPreserved (TypeID_get T) pa = false ->
      AnalysisMap.getCachedAnalysis T (AnalysisMap.invalidate pa am) = None)
  /\ (PreservedAnalyses.isPreserved (TypeID_get T) pa = true ->
      AnalysisMap.getCachedAnalysis T (AnalysisMap.invalidate pa am)
      = Some (AnalysisMap.ref m)
      /\ holds (AnalysisMap.invalidate pa am) T m).
Proof.
  intros Hnone [Hm Hclass]. subst T.
  assert (AnalysisMap.analyses (AnalysisMap.invalidate pa am)
            !! TypeID_get (AnalysisModel.class m)
          = if PreservedAnalyses.isPreservedT (AnalysisModel.class m) pa
            then Some m else None) as Hafter.
  { rewrite lookup_invalidate, Hm. simpl. by apply sweep_default. }
  unfold AnalysisMap.getCachedAnalysis, holds, PreservedAnalyses.isPreservedT in *.
  rewrite Hafter, Hm.
  split; [done|]. split; intros ->; done.
Qed.

End InvalidateFacts.

Section InvalidateExamples.
#[local] Existing Instance Example.classes.

(** C1, as the spec words it, fails: [mlir::Liveness] uses the default
    [isInvalidated] and is cached for the module; after [invalidate] with a
    set on which only [preserveAll()] was called it is no longer cached. *)
Lemma invalidate_preserveAll_evicts :
  let am := NestedAnalysisMap.analyses
              (ModuleAnalysisManager.analyses (mam Example.populated)) in
  let pa := PreservedAnalyses.preserveAll PreservedAnalyses.fresh in
  PreservedAnalyses.isAll pa = true
  /\ provided_isInvalidated Example.Liveness = None
  /\ AnalysisMap.getCachedAnalysis Example.Liveness am
     = Some (0, (Example.Liveness, Example.module))
  /\ AnalysisMap.getCachedAnalysis Example.Liveness (AnalysisMap.invalidate pa am)
     = None.
Proof. repeat split; vm_compute; reflexivity. Qed.

(** [mlir::CallGraph] has an [isInvalidated] that respects [isAll()]; with
    the set above it stays cached, at its address. *)
Example callgraph_respects_isAll :
  respects_isAll Example.CallGraph
  /\ AnalysisMap.getCachedAnalysis Example.CallGraph
       (AnalysisMap.invalidate (PreservedAnalyses.preserveAll PreservedAnalyses.fresh)
          (AnalysisMap.getAnalysis Example.CallGraph None
             (AnalysisMap.create Example.module) (world Example.start)).1.2)
     = Some (0, (Example.CallGraph, Example.module)).
Proof.
  split; [|vm_compute; reflexivity].
  eexists. split; [reflexivity|]. intros analysis pa Hall. simpl.
  by rewrite Hall.
Qed.

Lemma invalidate_after_preserveAll_witness :
  let am := NestedAnalysisMap.analyses
              (ModuleAnalysisManager.analyses (mam Example.populated)) in
  let pa := PreservedAnalyses.preserve (TypeID_get Example.Liveness)
              (PreservedAnalyses.preserveAll PreservedAnalyses.fresh) in
  let m := {| AnalysisModel.class := Example.Liveness; AnalysisModel.addr := 0;
              AnalysisModel.analysis := (Example.Liveness, Example.module) |} in
  AnalysisMap.analyses (AnalysisMap.invalidate pa am) !! TypeID_get Example.Liveness
  = Some m.
Proof.
  intros am pa m.
  refine (proj2 (invalidate_after_preserveAll am pa (TypeID_get Example.Liveness) m
                   _ _) _); reflexivity.
Defined.

Lemma default_invalidation_witness :
  let am := NestedAnalysisMap.analyses
              (ModuleAnalysisManager.analyses (mam Example.populated)) in
  AnalysisMap.getCachedAnalysis Example.Liveness
    (AnalysisMap.invalidate PreservedAnalyses.fresh am) = None.
Proof.
  intros am.
  refine (proj1 (proj2 (default_invalidation am PreservedAnalyses.fresh Example.Liveness
                   {| AnalysisModel.class := Example.Liveness; AnalysisModel.addr := 0;
                      AnalysisModel.analysis := (Example.Liveness, Example.module) |}
                   _ _)) _).
  - reflexivity.
  - split; reflexivity.
  - reflexivity.
Defined.

End InvalidateExamples.

(** ** The tree of nested analysis maps *)

Section TreeFacts.
Context `{AnalysisClasses}.
Import NestedAnalysisMap.

Lemma lookup_node_app q r t :
  lookup_node (q ++ r) t = lookup_node q t ≫= lookup_node r.
Proof.
  revert t. induction q as [|op q IH]; intros t; simpl; [done|].
  destruct (childAnalyses t !! op); [apply IH|done].
Qed.

(** Below the changed map: what the changed map holds there. *)
Lemma lookup_update_below f q r t :
  lookup_node (q ++ r) (update_node f q t)
  = lookup_node q t ≫= fun n => lookup_node r (f n).
Proof.
  revert t. induction q as [|op q IH]; intros t; simpl; [done|].
  rewrite lookup_alter_eq.
  destruct (childAnalyses t !! op); simpl; [apply IH|done].
Qed.

Lemma lookup_update_here f q t :
  lookup_node q (update_node f q t) = f <$> lookup_node q t.
Proof.
  rewrite <- (app_nil_r q) at 1. rewrite lookup_update_below.
  by destruct (lookup_node q t).
Qed.

(** Off the path to the changed map, and above it on the path: the same
    analyses as before. *)
Lemma lookup_update_outside f q : forall p t,
  ¬ q `prefix_of` p ->
  analyses <$> lookup_node p (update_node f q t) = analyses <$> lookup_node p t.
Proof.
  induction q as [|op q IH]; intros p t Hq.
  - destruct Hq. apply prefix_nil.
  - destruct p as [|op' p]; simpl; [done|].
    destruct (decide (op = op')) as [<-|Hne].
    + rewrite lookup_alter_eq.
      destruct (childAnalyses t !! op); simpl; [|done].
      apply IH. intros Hpre. apply Hq. by apply prefix_cons.
    + by rewrite lookup_alter_ne.
Qed.

(** A change that keeps the children of the map keeps everything below. *)
Lemma lookup_node_children r n n' :
  childAnalyses n' = childAnalyses n -> r ≠ [] ->
  lookup_node r n' = lookup_node r n.
Proof. intros Hc Hr. destruct r as [|op r]; [done|]. simpl. by rewrite Hc. Qed.

Lemma lookup_update_keeps_below f q r t :
  (forall n, childAnalyses (f n) = childAnalyses n) -> r ≠ [] ->
  lookup_node (q ++ r) (update_node f q t) = lookup_node (q ++ r) t.
Proof.
  intros Hf Hr. rewrite lookup_update_below, lookup_node_app.
  destruct (lookup_node q t) as [n|]; simpl; [|done].
  by apply lookup_node_children.
Qed.

Lemma lookup_update_other f q p t :
  (forall n, childAnalyses (f n) = childAnalyses n) -> p ≠ q ->
  analyses <$> lookup_node p (update_node f q t) = analyses <$> lookup_node p t.
Proof.
  intros Hf Hne. destruct (decide (q `prefix_of` p)) as [[r ->]|Hpre].
  - rewrite lookup_update_keeps_below; [done..|].
    intros ->. apply Hne. by rewrite app_nil_r.
  - by apply lookup_update_outside.
Qed.

(** A change that does not change the map it is made on changes nothing. *)
Lemma update_node_id f q : forall t n,
  lookup_node q t = Some n -> f n = n -> update_node f q t = t.
Proof.
  induction q as [|op q IH]; intros t n Hn Hf; simpl in *.
  - by injection Hn as ->.
  - destruct (childAnalyses t !! op) as [child|] eqn:Hchild; [|done].
    rewrite alter_id; [by destruct t|].
    intros child' Hchild'. rewrite Hchild in Hchild'. injection Hchild' as <-.
    by apply (IH _ n).
Qed.

Lemma set_analyses_same n : set_analyses (analyses n) n = n.
Proof. by destruct n. Qed.

End TreeFacts.

(** ** The calls of [AnalysisManager], unfolded *)

Section ManagerFacts.
Context `{AnalysisClasses} `{OperationTree}.
Import NestedAnalysisMap.

Lemma with_root_same s : with_root (root s) (world s) s = s.
Proof. by destruct s as [[] ?]. Qed.

Lemma getAnalysis_unfold T am s :
  AnalysisManager.getAnalysis T am s
  = match lookup_node (AnalysisManager.impl am) (root s) with
    | None => Fails DanglingManager
    | Some n =>
        let '(r, analyses', w') :=
          AnalysisMap.getAnalysis T (ModuleAnalysisManager.passInstrumentor (mam s))
            (analyses n) (world s) in
        Returns r
          (with_root (update_node (set_analyses analyses') (AnalysisManager.impl am) (root s))
             w' s)
    end.
Proof.
  unfold AnalysisManager.getAnalysis, AnalysisManager.getPassInstrumentor,
    AnalysisManager.on_analyses, AnalysisManager.deref, AnalysisManager.modify,
    bind, ret, root.
  destruct (lookup_node _ _) as [n|] eqn:Hn; [|done].
  rewrite Hn.
  by destruct (AnalysisMap.getAnalysis _ _ _ _) as [[r a'] w'].
Qed.

Lemma getCachedAnalysis_unfold T am s :
  AnalysisManager.getCachedAnalysis T am s
  = match lookup_node (AnalysisManager.impl am) (root s) with
    | None => Fails DanglingManager
    | Some n => Returns (AnalysisMap.getCachedAnalysis T (analyses n)) s
    end.
Proof.
  unfold AnalysisManager.getCachedAnalysis, AnalysisManager.deref, bind, ret, root.
  by destruct (lookup_node _ _).
Qed.

Lemma getCachedChildAnalysis_unfold T op am s :
  AnalysisManager.getCachedChildAnalysis T op am s
  = match lookup_node (AnalysisManager.impl am) (root s) with
    | None => Fails DanglingManager
    | Some n =>
        if bool_decide (getParentOp op = Some (getOperation n)) then
          Returns
            (match childAnalyses n !! op with
             | None => None
             | Some child => AnalysisMap.getCachedAnalysis T (analyses child)
             end) s
        else Fails AssertionFailure
    end.
Proof.
  unfold AnalysisManager.getCachedChildAnalysis, AnalysisManager.deref,
    assert, bind, ret, fail, root.
  destruct (lookup_node _ _) as [n|]; [|done].
  destruct (bool_decide _); [|done].
  by destruct (childAnalyses n !! op).
Qed.

Lemma invalidate_unfold pa am s :
  AnalysisManager.invalidate pa am s
  = match lookup_node (AnalysisManager.impl am) (root s) with
    | None => Fails DanglingManager
    | Some _ =>
        Returns tt
          (with_root (update_node (NestedAnalysisMap.invalidate pa)
                        (AnalysisManager.impl am) (root s)) (world s) s)
    end.
Proof.
  unfold AnalysisManager.invalidate, AnalysisManager.deref, AnalysisManager.modify,
    bind, root.
  by destruct (lookup_node _ _).
Qed.

Lemma update_node_compose f g q : forall t,
  update_node g q (update_node f q t) = update_node (fun n => g (f n)) q t.
Proof.
  induction q as [|op q IH]; intros t; simpl; [done|].
  f_equal. rewrite alter_alter_eq. apply alter_ext. intros child _. apply IH.
Qed.

Lemma clear_unfold am s :
  AnalysisManager.clear am s
  = match lookup_node (AnalysisManager.impl am) (root s) with
    | None => Fails DanglingManager
    | Some _ =>
        Returns tt
          (with_root (update_node cleared (AnalysisManager.impl am) (root s))
             (world s) s)
    end.
Proof.
  unfold AnalysisManager.clear, AnalysisManager.deref, AnalysisManager.modify,
    bind, root.
  destruct (lookup_node _ _); [|done].
  simpl. by rewrite update_node_compose.
Qed.

End ManagerFacts.

(** ** The analyses of one operation: [getAnalysis] *)

Section GetAnalysisFacts.
Context `{AnalysisClasses}.

Lemma getAnalysis_hit T pi am w m :
  AnalysisMap.analyses am !! TypeID_get T = Some m ->
  AnalysisMap.getAnalysis T pi am w = (AnalysisMap.ref m, am, w).
Proof.
  intros Hm. unfold AnalysisMap.getAnalysis, AnalysisMap.getAnalysisImpl.
  by rewrite Hm.
Qed.

Lemma getAnalysis_miss T pi am w :
  AnalysisMap.analyses am !! TypeID_get T = None ->
  AnalysisMap.getAnalysis T pi am w
  = (AnalysisMap.ref (constructed T am w),
     {| AnalysisMap.ir := AnalysisMap.ir am;
        AnalysisMap.analyses :=
          <[ TypeID_get T := constructed T am w ]> (AnalysisMap.analyses am) |},
     {| next_addr := S (next_addr w);
        events :=
          events w ++
          match pi with
          | Some _ => instrumented (T, AnalysisMap.ir am, next_addr w)
          | None => [Constructed T (AnalysisMap.ir am) (next_addr w)]
          end |}).
Proof.
  intros Hm. unfold AnalysisMap.getAnalysis, AnalysisMap.getAnalysisImpl.
  rewrite Hm. unfold AnalysisModel.make_unique, constructed, instrumented.
  unfold notify, emit.
  destruct pi; simpl; [rewrite <- !app_assoc|]; reflexivity.
Qed.

(** After [getAnalysis<T>] the map holds, under the id of [T], the model
    whose analysis was returned; the entries of the other ids are the
    entries of before. *)
Lemma getAnalysis_entries T pi am w :
  exists m,
    (AnalysisMap.getAnalysis T pi am w).1.1 = AnalysisMap.ref m
    /\ AnalysisMap.analyses (AnalysisMap.getAnalysis T pi am w).1.2 !! TypeID_get T
       = Some m
    /\ (forall id m',
          AnalysisMap.analyses am !! id = Some m' ->
          AnalysisMap.analyses (AnalysisMap.getAnalysis T pi am w).1.2 !! id = Some m').
Proof.
  destruct (AnalysisMap.analyses am !! TypeID_get T) as [m|] eqn:Hm.
  - exists m. rewrite (getAnalysis_hit _ _ _ _ _ Hm). simpl. auto.
  - exists (constructed T am w). rewrite (getAnalysis_miss _ _ _ _ Hm). simpl.
    split; [done|]. split; [apply lookup_insert_eq|].
    intros id m' Hm'. rewrite lookup_insert_ne; [done|]. congruence.
Qed.

End GetAnalysisFacts.

(** ** What a call leaves alone *)

Section FrameFacts.
Context `{AnalysisClasses} `{OperationTree}.
Import NestedAnalysisMap.

(** C3: [invalidate] through a manager changes the analyses of the map the
    manager points to, and nothing else: that map keeps its children, every
    map below it is the map of before, and the analyses of every other map
    of the tree (parents, siblings, their descendants) are the analyses of
    before. *)
Theorem invalidate_only_own_analyses pa am s n :
  lookup_node (AnalysisManager.impl am) (root s) = Some n ->
  exists s',
    AnalysisManager.invalidate pa am s = Returns tt s'
    /\ analyses_at (AnalysisManager.impl am) s'
       = Some (AnalysisMap.invalidate pa (analyses n))
    /\ childAnalyses <$> lookup_node (AnalysisManager.impl am) (root s')
       = Some (childAnalyses n)
    /\ (forall r, r ≠ [] ->
          lookup_node (AnalysisManager.impl am ++ r) (root s')
          = lookup_node (AnalysisManager.impl am ++ r) (root s))
    /\ (forall p, p ≠ AnalysisManager.impl am -> analyses_at p s' = analyses_at p s)
    /\ world s' = world s.
Proof.
  intros Hn. rewrite invalidate_unfold, Hn. eexists. split; [reflexivity|].
  unfold analyses_at, with_root, root in *; simpl.
  split; [|split; [|split; [|split]]].
  - by rewrite lookup_update_here, Hn.
  - by rewrite lookup_update_here, Hn.
  - intros r Hr. by apply lookup_update_keeps_below.
  - intros p Hp. by apply lookup_update_other.
  - reflexivity.
Qed.

(** C4, amended: [clear] through a manager empties the analyses of the map
    the manager points to and its [childAnalyses]: no map is left below it.
    The analyses of the maps that are not below it are the analyses of
    before. *)
Theorem clear_drops_own_subtree am s n :
  lookup_node (AnalysisManager.impl am) (root s) = Some n ->
  exists s',
    AnalysisManager.clear am s = Returns tt s'
    /\ lookup_node (AnalysisManager.impl am) (root s')
       = Some {| childAnalyses := ∅;
                 analyses := AnalysisMap.create (getOperation n) |}
    /\ (forall T, AnalysisManager.getCachedAnalysis T am s' = Returns None s')
    /\ (forall r, r ≠ [] ->
          lookup_node (AnalysisManager.impl am ++ r) (root s') = None)
    /\ (forall p, ¬ AnalysisManager.impl am `prefix_of` p ->
          analyses_at p s' = analyses_at p s)
    /\ world s' = world s.
Proof.
  intros Hn. rewrite clear_unfold, Hn. eexists. split; [reflexivity|].
  assert (lookup_node (AnalysisManager.impl am)
            (update_node cleared (AnalysisManager.impl am) (root s))
          = Some (cleared n)) as Hhere.
  { by rewrite lookup_update_here, Hn. }
  unfold analyses_at.
  assert (forall T s', AnalysisManager.getCachedAnalysis T am s'
            = match lookup_node (AnalysisManager.impl am) (root s') with
              | None => Fails DanglingManager
              | Some n => Returns (AnalysisMap.getCachedAnalysis T (analyses n)) s'
              end) as Hcached by (intros; apply getCachedAnalysis_unfold).
  unfold with_root, root in *; simpl.
  split; [exact Hhere|]. split; [|split; [|split]].
  - intros T. rewrite Hcached. simpl. by rewrite Hhere.
  - intros [|op r] Hr; [done|].
    rewrite lookup_update_below, Hn. simpl. by rewrite lookup_empty.
  - intros p Hp. by apply lookup_update_outside.
  - reflexivity.
Qed.

(** C8: when the parent of [op] is the operation of the manager,
    [getCachedChildAnalysis<T>(op)] returns [llvm::None] if [childAnalyses]
    has no map for [op], and what that map has cached for [T] if it has one;
    the state after the call is the state before it, so no map was made for
    [op]. *)
Theorem getCachedChildAnalysis_reads_only T op am s n :
  lookup_node (AnalysisManager.impl am) (root s) = Some n ->
  getParentOp op = Some (getOperation n) ->
  AnalysisManager.getCachedChildAnalysis T op am s
  = Returns
      (match childAnalyses n !! op with
       | None => None
       | Some child => AnalysisMap.getCachedAnalysis T (analyses child)
       end) s
  /\ (childAnalyses n !! op = None ->
      AnalysisManager.getCachedChildAnalysis T op am s = Returns None s
      /\ lookup_node (AnalysisManager.impl am ++ [op]) (root s) = None).
Proof.
  intros Hn Hparent. rewrite getCachedChildAnalysis_unfold, Hn.
  rewrite bool_decide_eq_true_2 by done. split; [done|].
  intros Hnone. rewrite Hnone. split; [done|].
  rewrite lookup_node_app, Hn. simpl. by rewrite Hnone.
Qed.

(** C10: [getAnalysis<T>()] through a manager that points to a map returns,
    and [getCachedAnalysis<T>()] right after it returns the same reference
    and leaves the state as it is. *)
Theorem getCachedAnalysis_after_getAnalysis T am s n :
  lookup_node (AnalysisManager.impl am) (root s) = Some n ->
  exists r s',
    AnalysisManager.getAnalysis T am s = Returns r s'
    /\ AnalysisManager.getCachedAnalysis T am s' = Returns (Some r) s'.
Proof.
  intros Hn. rewrite getAnalysis_unfold, Hn.
  destruct (getAnalysis_entries T (ModuleAnalysisManager.passInstrumentor (mam s))
              (analyses n) (world s)) as (m & Hr & Hm & _).
  destruct (AnalysisMap.getAnalysis _ _ _ _) as [[r analyses'] w']; simpl in *.
  eexists _, _. split; [reflexivity|].
  rewrite getCachedAnalysis_unfold. unfold with_root, root in *; simpl.
  rewrite lookup_update_here, Hn. simpl.
  unfold AnalysisMap.getCachedAnalysis. simpl. by rewrite Hm, Hr.
Qed.

End FrameFacts.

(** ** Sequences of calls: instrumentation and identity *)

Section SequenceFacts.
Context `{AnalysisClasses} `{OperationTree}.
Import NestedAnalysisMap.

Lemma constructions_instrumented cs :
  constructions (flat_map instrumented cs) = cs.
Proof.
  induction cs as [|[[T op] a] cs IH]; simpl; [done|]. by rewrite IH.
Qed.

Lemma entry_at_analyses_at p id s :
  entry_at p id s = analyses_at p s ≫= fun am => AnalysisMap.analyses am !! id.
Proof. unfold entry_at, analyses_at. by destruct (lookup_node _ _). Qed.

(** A hit: the reference of the entry, and the state as it was. *)
Lemma getAnalysis_cached T am s m :
  entry_at (AnalysisManager.impl am) (TypeID_get T) s = Some m ->
  AnalysisManager.getAnalysis T am s = Returns (AnalysisMap.ref m) s.
Proof.
  unfold entry_at. fold (root s). intros Hm. rewrite getAnalysis_unfold.
  destruct (lookup_node _ _) as [n|] eqn:Hn; [|done].
  rewrite (getAnalysis_hit _ _ _ _ _ Hm).
  rewrite (update_node_id _ _ _ n Hn (set_analyses_same n)).
  by rewrite with_root_same.
Qed.

(** A miss: the model is made at the next address, and the world has the
    events of one construction more. *)
Lemma getAnalysis_computed T am s n :
  lookup_node (AnalysisManager.impl am) (root s) = Some n ->
  entry_at (AnalysisManager.impl am) (TypeID_get T) s = None ->
  exists s',
    AnalysisManager.getAnalysis T am s
    = Returns (AnalysisMap.ref (constructed T (analyses n) (world s))) s'
    /\ ModuleAnalysisManager.passInstrumentor (mam s')
       = ModuleAnalysisManager.passInstrumentor (mam s)
    /\ next_addr (world s') = S (next_addr (world s))
    /\ events (world s')
       = events (world s) ++
         match ModuleAnalysisManager.passInstrumentor (mam s) with
         | Some _ => instrumented (T, getOperation n, next_addr (world s))
         | None => [Constructed T (getOperation n) (next_addr (world s))]
         end.
Proof.
  unfold entry_at. fold (root s). intros Hn. rewrite Hn. intros Hm.
  rewrite getAnalysis_unfold, Hn, (getAnalysis_miss _ _ _ _ Hm).
  eexists. split; [reflexivity|]. by simpl.
Qed.

(** What a call that returns does to the world. *)
Lemma step_events pi req s r s' :
  ModuleAnalysisManager.passInstrumentor (mam s) = Some pi ->
  step req s = Returns r s' ->
  ModuleAnalysisManager.passInstrumentor (mam s') = Some pi
  /\ exists cs,
       events (world s') = events (world s) ++ flat_map instrumented cs
       /\ next_addr (world s') = next_addr (world s) + length cs.
Proof.
  intros Hpi Hstep.
  assert (s' = s \/ (world s' = world s /\
                     ModuleAnalysisManager.passInstrumentor (mam s')
                     = ModuleAnalysisManager.passInstrumentor (mam s))
          -> ModuleAnalysisManager.passInstrumentor (mam s') = Some pi
             /\ exists cs,
                  events (world s') = events (world s) ++ flat_map instrumented cs
                  /\ next_addr (world s') = next_addr (world s) + length cs) as Hsame.
  { intros [->|[-> ->]]; (split; [done|]); exists [];
      by rewrite app_nil_r, Nat.add_0_r. }
  destruct req as [T am|T am|T op am|pa am|am]; unfold step, bind, ret in Hstep.
  - destruct (lookup_node (AnalysisManager.impl am) (root s)) as [n|] eqn:Hn;
      [|by rewrite getAnalysis_unfold, Hn in Hstep].
    destruct (entry_at (AnalysisManager.impl am) (TypeID_get T) s) as [m|] eqn:Hm.
    + rewrite (getAnalysis_cached _ _ _ _ Hm) in Hstep.
      injection Hstep as _ <-. auto.
    + destruct (getAnalysis_computed _ _ _ _ Hn Hm) as (s1 & Hs1 & Hpi1 & Haddr & Hev).
      rewrite Hs1 in Hstep. injection Hstep as _ <-.
      rewrite Hpi in Hpi1, Hev. split; [done|].
      exists [(T, getOperation n, next_addr (world s))].
      rewrite Hev. simpl. split; [reflexivity|lia].
  - rewrite getCachedAnalysis_unfold in Hstep.
    destruct (lookup_node _ _); [|done]. injection Hstep as _ <-. auto.
  - rewrite getCachedChildAnalysis_unfold in Hstep.
    destruct (lookup_node _ _); [|done]. destruct (bool_decide _); [|done].
    injection Hstep as _ <-. auto.
  - rewrite invalidate_unfold in Hstep.
    destruct (lookup_node _ _); [|done]. injection Hstep as _ <-. auto.
  - rewrite clear_unfold in Hstep.
    destruct (lookup_node _ _); [|done]. injection Hstep as _ <-. auto.
Qed.

Lemma run_events pi reqs : forall s,
  ModuleAnalysisManager.passInstrumentor (mam s) = Some pi ->
  exists cs,
    events (world (run reqs s)) = events (world s) ++ flat_map instrumented cs
    /\ next_addr (world (run reqs s)) = next_addr (world s) + length cs.
Proof.
  induction reqs as [|req reqs IH]; intros s Hpi; simpl.
  - exists []. by rewrite app_nil_r, Nat.add_0_r.
  - destruct (step req s) as [r s'|] eqn:Hstep.
    + destruct (step_events _ _ _ _ _ Hpi Hstep) as (Hpi' & cs1 & Hev1 & Haddr1).
      destruct (IH s' Hpi') as (cs2 & Hev2 & Haddr2).
      exists (cs1 ++ cs2).
      rewrite Hev2, Hev1, Haddr2, Haddr1, flat_map_app, length_app, <- app_assoc.
      split; [done|lia].
    + exists []. by rewrite app_nil_r, Nat.add_0_r.
Qed.

(** C6: with a pass instrumentor, whatever the calls, the events they add
    are, for each analysis constructed, [runBeforeAnalysis], the
    construction, [runAfterAnalysis], and nothing else; as many analyses are
    constructed as models allocated.  [getAnalysis] on an analysis that is
    cached adds no event (it leaves the whole state as it is), on one that is
    not it adds the three events of its construction, and
    [getCachedAnalysis] leaves the state as it is. *)
Theorem instrumentation_once_per_construction pi reqs s :
  ModuleAnalysisManager.passInstrumentor (mam s) = Some pi ->
  (events (world (run reqs s)) = events (world s) ++ events_since s (run reqs s)
   /\ events_since s (run reqs s)
      = flat_map instrumented (constructions (events_since s (run reqs s)))
   /\ length (constructions (events_since s (run reqs s)))
      = next_addr (world (run reqs s)) - next_addr (world s))
  /\ (forall T am m,
        entry_at (AnalysisManager.impl am) (TypeID_get T) s = Some m ->
        AnalysisManager.getAnalysis T am s = Returns (AnalysisMap.ref m) s)
  /\ (forall T am n,
        lookup_node (AnalysisManager.impl am) (root s) = Some n ->
        entry_at (AnalysisManager.impl am) (TypeID_get T) s = None ->
        exists r s',
          AnalysisManager.getAnalysis T am s = Returns r s'
          /\ events_since s s'
             = instrumented (T, getOperation n, next_addr (world s)))
  /\ (forall T am r s',
        AnalysisManager.getCachedAnalysis T am s = Returns r s' -> s' = s).
Proof.
  intros Hpi. split; [|split; [|split]].
  - destruct (run_events pi reqs s Hpi) as (cs & Hev & Haddr).
    unfold events_since. rewrite Hev, drop_app_length, constructions_instrumented.
    split; [done|]. split; [done|lia].
  - intros T am m. apply getAnalysis_cached.
  - intros T am n Hn Hm.
    destruct (getAnalysis_computed _ _ _ _ Hn Hm) as (s' & Hs' & _ & _ & Hev).
    eexists _, s'. split; [exact Hs'|].
    unfold events_since. by rewrite Hev, Hpi, drop_app_length.
  - intros T am r s'. rewrite getCachedAnalysis_unfold.
    destruct (lookup_node _ _); [|done]. by intros [= _ <-].
Qed.

End SequenceFacts.

Section IdentityFacts.
Context `{AnalysisClasses} `{OperationTree}.
Import NestedAnalysisMap.

(** [getAnalysis<T>] leaves, where the manager points, an entry for [T]
    whose analysis it returned. *)
Lemma getAnalysis_leaves_entry T am s r s' :
  AnalysisManager.getAnalysis T am s = Returns r s' ->
  exists m,
    entry_at (AnalysisManager.impl am) (TypeID_get T) s' = Some m
    /\ AnalysisMap.ref m = r.
Proof.
  rewrite getAnalysis_unfold.
  destruct (lookup_node _ _) as [n|] eqn:Hn; [|done].
  destruct (getAnalysis_entries T (ModuleAnalysisManager.passInstrumentor (mam s))
              (analyses n) (world s)) as (m & Hr & Hm & _).
  destruct (AnalysisMap.getAnalysis _ _ _ _) as [[r' analyses'] w']; simpl in *.
  intros [= <- <-]. exists m. split; [|done].
  unfold entry_at, with_root, root in *; simpl.
  by rewrite lookup_update_here, Hn.
Qed.

(** No entry of any map is lost or changed by [getAnalysis]. *)
Lemma getAnalysis_keeps_entries T am s r s' p id m :
  AnalysisManager.getAnalysis T am s = Returns r s' ->
  entry_at p id s = Some m -> entry_at p id s' = Some m.
Proof.
  rewrite getAnalysis_unfold.
  destruct (lookup_node _ _) as [n|] eqn:Hn; [|done].
  destruct (getAnalysis_entries T (ModuleAnalysisManager.passInstrumentor (mam s))
              (analyses n) (world s)) as (_ & _ & _ & Hkeeps).
  destruct (AnalysisMap.getAnalysis _ _ _ _) as [[r' analyses'] w']; simpl in *.
  intros [= <- <-]. rewrite !entry_at_analyses_at.
  unfold analyses_at, with_root, root in *; simpl.
  destruct (decide (p = AnalysisManager.impl am)) as [->|Hp].
  - rewrite lookup_update_here, Hn. simpl. apply Hkeeps.
  - by rewrite lookup_update_other.
Qed.

Lemma step_query_keeps_entries req s r s' p id m :
  is_query req = true ->
  step req s = Returns r s' ->
  entry_at p id s = Some m -> entry_at p id s' = Some m.
Proof.
  destruct req as [T am|T am|T op am|pa am|am]; simpl; intros Hq; try done;
    unfold bind, ret.
  - destruct (AnalysisManager.getAnalysis T am s) as [r' s1|] eqn:Hget; [|done].
    intros [= _ <-]. by eapply getAnalysis_keeps_entries.
  - rewrite getCachedAnalysis_unfold.
    destruct (lookup_node _ _); [|done]. by intros [= _ <-].
  - rewrite getCachedChildAnalysis_unfold.
    destruct (lookup_node _ _); [|done]. destruct (bool_decide _); [|done].
    by intros [= _ <-].
Qed.

Lemma run_queries_keep_entries reqs p id m : forall s,
  forallb is_query reqs = true ->
  entry_at p id s = Some m -> entry_at p id (run reqs s) = Some m.
Proof.
  induction reqs as [|req reqs IH]; intros s Hq Hm; simpl in *; [done|].
  apply andb_prop in Hq as [Hreq Hreqs].
  destruct (step req s) as [r s'|] eqn:Hstep; [|done].
  apply IH; [done|]. by eapply step_query_keeps_entries.
Qed.

(** The entries of one id in a list of entries with distinct ids. *)
Lemma length_filter_key {A} (id : TypeID) (l : list (TypeID * A)) :
  NoDup l.*1 -> length (filter (fun kv => kv.1 = id) l) <= 1.
Proof.
  induction l as [|[k v] l IH]; simpl; [lia|].
  intros Hnd. apply NoDup_cons in Hnd as [Hk Hnd].
  rewrite filter_cons. simpl. destruct (decide (k = id)) as [->|Hne]; [|auto].
  assert (filter (fun kv : TypeID * A => kv.1 = id) l = []) as ->; [|simpl; lia].
  destruct (filter (fun kv : TypeID * A => kv.1 = id) l) as [|[k' v'] l'] eqn:Hf;
    [done|].
  assert ((k', v') ∈ filter (fun kv : TypeID * A => kv.1 = id) l) as Hin
    by (rewrite Hf; left).
  apply list_elem_of_filter in Hin as [Hk' Hin]. simpl in Hk'. subst k'.
  destruct Hk. by apply (list_elem_of_fmap_2 fst _ (id, v')).
Qed.

(** C7: after [getAnalysis<T>()] through a manager, and any number of calls
    through any managers that are neither [invalidate] nor [clear],
    [getAnalysis<T>()] through the same manager returns the same reference
    (same address, same analysis) and changes nothing; and in every state
    every analysis map has at most one entry for an id. *)
Theorem getAnalysis_twice_same_instance T am reqs s r s1 :
  AnalysisManager.getAnalysis T am s = Returns r s1 ->
  forallb is_query reqs = true ->
  AnalysisManager.getAnalysis T am (run reqs s1) = Returns r (run reqs s1)
  /\ (forall (s0 : State) p analyses0 id,
        analyses_at p s0 = Some analyses0 ->
        length (entries_of id analyses0) <= 1).
Proof.
  intros Hget Hq. split.
  - destruct (getAnalysis_leaves_entry _ _ _ _ _ Hget) as (m & Hm & <-).
    apply getAnalysis_cached. by apply run_queries_keep_entries.
  - intros s0 p analyses0 id _. unfold entries_of.
    apply length_filter_key, NoDup_fst_map_to_list.
Qed.

End IdentityFacts.

(** ** The example program *)

Section Examples.
#[local] Existing Instance Example.classes.
#[local] Existing Instance Example.operations.
Import NestedAnalysisMap.

(** The names given to the instrumentor. *)
Example getAnalysisName_examples :
  AnalysisMap.getAnalysisName Example.Liveness = "Liveness"%string
  /\ AnalysisMap.getAnalysisName Example.DominatorTree = "DominatorTree"%string.
Proof. split; reflexivity. Qed.

(** [Liveness] is computed for the module, asked for again, invalidated by
    an empty set and computed again: the instrumentor hears of two
    computations, and the second analysis is a new object. *)
Example liveness_scenario :
  events (world (run [ GetAnalysis Example.Liveness AnalysisManager.of_module;
                       GetAnalysis Example.Liveness AnalysisManager.of_module;
                       Invalidate PreservedAnalyses.fresh AnalysisManager.of_module;
                       GetCachedAnalysis Example.Liveness AnalysisManager.of_module;
                       GetAnalysis Example.Liveness AnalysisManager.of_module ]
                  Example.start))
  = [ RunBeforeAnalysis "Liveness" (TypeID_get Example.Liveness) Example.module;
      Constructed Example.Liveness Example.module 0;
      RunAfterAnalysis "Liveness" (TypeID_get Example.Liveness) Example.module;
      RunBeforeAnalysis "Liveness" (TypeID_get Example.Liveness) Example.module;
      Constructed Example.Liveness Example.module 1;
      RunAfterAnalysis "Liveness" (TypeID_get Example.Liveness) Example.module ].
Proof. vm_compute. reflexivity. Qed.

(** [DominatorTree] stays cached when only the CFG is preserved. *)
Example dominator_tree_scenario :
  match
    step (Invalidate (PreservedAnalyses.preserveT Example.CFG PreservedAnalyses.fresh)
            AnalysisManager.of_module)
      (run [GetAnalysis Example.DominatorTree AnalysisManager.of_module] Example.start)
  with
  | Returns _ s =>
      AnalysisManager.getCachedAnalysis Example.DominatorTree AnalysisManager.of_module s
      = Returns (Some (0, (Example.DominatorTree, Example.module))) s
  | Fails _ => False
  end.
Proof. vm_compute. reflexivity. Qed.

Lemma invalidate_only_own_analyses_witness :
  exists s',
    AnalysisManager.invalidate PreservedAnalyses.fresh AnalysisManager.of_module
      Example.populated = Returns tt s'
    /\ analyses_at [Example.func] s' = analyses_at [Example.func] Example.populated.
Proof.
  destruct (invalidate_only_own_analyses PreservedAnalyses.fresh
              AnalysisManager.of_module Example.populated (root Example.populated)
              eq_refl) as (s' & Hreturns & _ & _ & _ & Hothers & _).
  exists s'. split; [exact Hreturns|]. apply Hothers. discriminate.
Defined.

(** C4, as the spec words it, fails: the map of [func], a child of the
    module, has [Liveness] cached; after [clear] on the manager of the module
    there is no map for [func] any more. *)
Lemma clear_destroys_children :
  AnalysisManager.getCachedChildAnalysis Example.Liveness Example.func
    AnalysisManager.of_module Example.populated
  = Returns (Some (1, (Example.Liveness, Example.func))) Example.populated
  /\ match AnalysisManager.clear AnalysisManager.of_module Example.populated with
     | Returns _ s' =>
         lookup_node [Example.func] (root s') = None
         /\ AnalysisManager.getCachedChildAnalysis Example.Liveness Example.func
              AnalysisManager.of_module s' = Returns None s'
     | Fails _ => False
     end.
Proof. split; [|split]; vm_compute; reflexivity. Qed.

Lemma clear_drops_own_subtree_witness :
  exists s',
    AnalysisManager.clear AnalysisManager.of_module Example.populated = Returns tt s'
    /\ lookup_node [Example.func] (root s') = None.
Proof.
  destruct (clear_drops_own_subtree AnalysisManager.of_module Example.populated
              (root Example.populated) eq_refl)
    as (s' & Hreturns & _ & _ & Hbelow & _).
  exists s'. split; [exact Hreturns|].
  apply (Hbelow [Example.func]). discriminate.
Defined.

Lemma getCachedChildAnalysis_reads_only_witness :
  AnalysisManager.getCachedChildAnalysis Example.Liveness 3%positive
    AnalysisManager.of_module Example.populated = Returns None Example.populated.
Proof.
  refine (proj1 (proj2 (getCachedChildAnalysis_reads_only Example.Liveness 3%positive
                          AnalysisManager.of_module Example.populated
                          (root Example.populated) eq_refl eq_refl) _)).
  reflexivity.
Defined.

Lemma getCachedAnalysis_after_getAnalysis_witness :
  exists r s',
    AnalysisManager.getAnalysis Example.Liveness AnalysisManager.of_module Example.start
    = Returns r s'
    /\ AnalysisManager.getCachedAnalysis Example.Liveness AnalysisManager.of_module s'
       = Returns (Some r) s'.
Proof.
  exact (getCachedAnalysis_after_getAnalysis Example.Liveness AnalysisManager.of_module
           Example.start (root Example.start) eq_refl).
Defined.

Lemma instrumentation_once_per_construction_witness :
  let reqs := [ GetAnalysis Example.Liveness AnalysisManager.of_module;
                GetCachedAnalysis Example.Liveness AnalysisManager.of_module;
                GetAnalysis Example.Liveness AnalysisManager.of_module;
                GetAnalysis Example.CFG (AnalysisManager.Build [Example.func]) ] in
  events_since Example.populated (run reqs Example.populated)
  = flat_map instrumented
      (constructions (events_since Example.populated (run reqs Example.populated))).
Proof.
  intros reqs.
  exact (proj1 (proj2 (proj1 (instrumentation_once_per_construction 1%positive reqs
                                Example.populated eq_refl)))).
Defined.

Lemma getAnalysis_twice_same_instance_witness :
  let reqs := [ GetAnalysis Example.CFG AnalysisManager.of_module;
                GetCachedChildAnalysis Example.Liveness Example.func
                  AnalysisManager.of_module ] in
  AnalysisManager.getAnalysis Example.Liveness AnalysisManager.of_module
    (run reqs Example.computed)
  = Returns (0, (Example.Liveness, Example.module)) (run reqs Example.computed).
Proof.
  intros reqs.
  exact (proj1 (getAnalysis_twice_same_instance Example.Liveness
                  AnalysisManager.of_module reqs Example.start
                  (0, (Example.Liveness, Example.module)) Example.computed
                  eq_refl eq_refl)).
Defined.

End Examples.

(** * Further properties *)

(** ** Preserved sets: order, growth, several classes at once *)

Section PreservedAnalysesMore.
Import PreservedAnalyses.

Lemma preservedIDs_inj pa pa' : preservedIDs pa = preservedIDs pa' -> pa = pa'.
Proof. destruct pa, pa'; simpl. by intros ->. Qed.

(** X1: the set a pass ends with depends on which calls of [preserve] and
    [preserveAll] were made on it, not on their order nor on how often a call
    was repeated. *)
Theorem after_depends_on_calls_made cs cs' pa :
  (forall c, c ∈ cs <-> c ∈ cs') -> after cs pa = after cs' pa.
Proof.
  intros Hsame. apply preservedIDs_inj, set_eq. intros id.
  rewrite !elem_of_after, !Hsame. reflexivity.
Qed.

Lemma after_depends_on_calls_made_witness :
  after [CallPreserve (TypeID_get Example.CFG); CallPreserveAll;
         CallPreserve (TypeID_get Example.CFG)] fresh
  = after [CallPreserveAll; CallPreserve (TypeID_get Example.CFG)] fresh.
Proof.
  apply after_depends_on_calls_made. intros c.
  rewrite !elem_of_cons. intuition.
Defined.

(** X2: a set only grows: an id that [isPreserved] stays preserved whatever
    is called on the set afterwards, and the set is not [isNone] any more. *)
Theorem preserved_stays_preserved cs pa id :
  isPreserved id pa = true ->
  isPreserved id (after cs pa) = true /\ isNone (after cs pa) = false.
Proof.
  rewrite !isPreserved_true. intros Hin.
  assert (id ∈ preservedIDs (after cs pa)) as Hafter
    by (apply elem_of_after; auto).
  split; [done|]. by apply (isNone_false _ id).
Qed.

Lemma preserved_stays_preserved_witness :
  isPreserved (TypeID_get Example.CFG)
    (after [CallPreserveAll; CallPreserve (TypeID_get Example.Liveness)]
       (preserveT Example.CFG fresh)) = true.
Proof.
  refine (proj1 (preserved_stays_preserved
                   [CallPreserveAll; CallPreserve (TypeID_get Example.Liveness)]
                   (preserveT Example.CFG fresh) (TypeID_get Example.CFG) _)).
  reflexivity.
Defined.

Lemma elem_of_preserveTs Ts : forall id pa,
  id ∈ preservedIDs (preserveTs Ts pa) <->
  (exists T, T ∈ Ts /\ id = TypeID_get T) \/ id ∈ preservedIDs pa.
Proof.
  induction Ts as [|T Ts IH]; intros id pa; simpl.
  - split; [auto|]. intros [(T & Hin & _)|?]; [|done]. by apply elem_of_nil in Hin.
  - rewrite IH. unfold preserveT. rewrite elem_of_preserve. split.
    + intros [(T' & Hin & ->)|[->|Hin]]; [left; exists T'|left; exists T|by right];
        (split; [|done]); apply elem_of_cons; auto.
    + intros [(T' & Hin & ->)|Hin]; [|auto].
      apply elem_of_cons in Hin as [->|Hin]; [auto|]. left. by exists T'.
Qed.

(** X3: [preserve<T1, T2, ...>()] preserves the ids of exactly the classes
    listed, besides what the set held, and never makes the set [isAll]:
    naming classes one by one is not [preserveAll]. *)
Theorem preserve_several Ts pa id :
  (isPreserved id (preserveTs Ts pa) = true <->
   (exists T, T ∈ Ts /\ id = TypeID_get T) \/ isPreserved id pa = true)
  /\ isAll (preserveTs Ts pa) = isAll pa.
Proof.
  split.
  - rewrite !isPreserved_true. apply elem_of_preserveTs.
  - unfold isAll. apply bool_decide_ext. rewrite elem_of_preserveTs.
    split; [|auto]. by intros [(T & _ & ?)|?].
Qed.

End PreservedAnalysesMore.

(** ** The name given to the instrumentor *)

Section NameFacts.
Context `{AnalysisClasses}.

Lemma drop_front_app prefix rest : drop_front prefix (prefix +:+ rest) = Some rest.
Proof.
  induction prefix as [|a prefix IH]; simpl; [done|].
  by rewrite Ascii.eqb_refl.
Qed.

Lemma drop_front_Some prefix : forall name rest,
  drop_front prefix name = Some rest -> name = prefix +:+ rest.
Proof.
  induction prefix as [|a prefix IH]; intros name rest; simpl.
  - by intros [= ->].
  - destruct name as [|b name]; [done|].
    destruct (Ascii.eqb a b) eqn:Hab; [|done].
    apply Ascii.eqb_eq in Hab as ->. intros Hrest. by rewrite (IH _ _ Hrest).
Qed.

(** X4: [getAnalysisName] removes one leading ["mlir::"] from the type name;
    when there is none it removes one leading ["(anonymous namespace)::"];
    a name with neither prefix is returned as it is.  After ["mlir::"] was
    removed nothing more is. *)
Theorem getAnalysisName_strips_one_prefix T :
  (forall rest,
     getTypeName T = "mlir::" +:+ rest -> AnalysisMap.getAnalysisName T = rest)
  /\ (forall rest,
        getTypeName T = "(anonymous namespace)::" +:+ rest ->
        AnalysisMap.getAnalysisName T = rest)
  /\ ((forall rest, getTypeName T ≠ "mlir::" +:+ rest) ->
      (forall rest, getTypeName T ≠ "(anonymous namespace)::" +:+ rest) ->
      AnalysisMap.getAnalysisName T = getTypeName T).
Proof.
  unfold AnalysisMap.getAnalysisName, consume_front.
  split; [|split].
  - intros rest ->. by rewrite drop_front_app.
  - intros rest ->. reflexivity.
  - intros Hmlir Hanon.
    destruct (drop_front "mlir::" (getTypeName T)) as [rest|] eqn:H1.
    { by apply drop_front_Some, Hmlir in H1. }
    destruct (drop_front "(anonymous namespace)::" (getTypeName T)) as [rest|] eqn:H2.
    { by apply drop_front_Some, Hanon in H2. }
    reflexivity.
Qed.

End NameFacts.

(** ** The analyses of one operation: more on [invalidate] *)

Section InvalidateMore.
Context `{AnalysisClasses}.

(** An entry found after [invalidate] was there before. *)
Lemma lookup_invalidate_Some pa am id m' :
  AnalysisMap.analyses (AnalysisMap.invalidate pa am) !! id = Some m' ->
  exists m,
    AnalysisMap.analyses am !! id = Some m
    /\ AnalysisModel.class m' = AnalysisModel.class m
    /\ AnalysisModel.addr m' = AnalysisModel.addr m.
Proof.
  rewrite lookup_invalidate.
  destruct (AnalysisMap.analyses am !! id) as [m|]; simpl; [|done].
  intros Hsweep. exists m. split; [done|]. by apply (sweep_Some _ _ pa).
Qed.

(** X5: [invalidate] only erases: an entry found after it was there before,
    under the same id, answered that it is not invalidated, and is the same
    model object of the same class. *)
Theorem invalidate_only_erases pa am id m' :
  AnalysisMap.analyses (AnalysisMap.invalidate pa am) !! id = Some m' ->
  exists m,
    AnalysisMap.analyses am !! id = Some m
    /\ AnalysisModel.isInvalidated m pa = (false, m')
    /\ AnalysisModel.class m' = AnalysisModel.class m
    /\ AnalysisModel.addr m' = AnalysisModel.addr m.
Proof.
  rewrite lookup_invalidate.
  destruct (AnalysisMap.analyses am !! id) as [m|]; simpl; [|done].
  intros Hsweep. exists m. split; [done|].
  split; [|by apply (sweep_Some _ _ pa)].
  unfold AnalysisMap.sweep in Hsweep.
  destruct (AnalysisModel.isInvalidated m pa) as [[] m'']; [done|].
  by injection Hsweep as ->.
Qed.

(** With classes that have no [isInvalidated] of their own, an entry stays
    exactly when its id is in the set. *)
Lemma lookup_invalidate_default pa am id :
  keyed am -> all_default am ->
  AnalysisMap.analyses (AnalysisMap.invalidate pa am) !! id
  = match AnalysisMap.analyses am !! id with
    | Some m =>
        if bool_decide (id ∈ PreservedAnalyses.preservedIDs pa) then Some m else None
    | None => None
    end.
Proof.
  intros Hkeyed Hdefault. rewrite lookup_invalidate.
  destruct (AnalysisMap.analyses am !! id) as [m|] eqn:Hm; simpl; [|done].
  rewrite (sweep_default _ _ (Hdefault _ _ Hm)).
  unfold PreservedAnalyses.isPreservedT, PreservedAnalyses.isPreserved.
  by rewrite <- (Hkeyed _ _ Hm).
Qed.

Lemma invalidate_keeps_keyed pa am : keyed am -> keyed (AnalysisMap.invalidate pa am).
Proof.
  intros Hkeyed id m' Hm'.
  destruct (lookup_invalidate_Some _ _ _ _ Hm') as (m & Hm & Hclass & _).
  rewrite Hclass. by apply Hkeyed.
Qed.

Lemma invalidate_keeps_default pa am :
  all_default am -> all_default (AnalysisMap.invalidate pa am).
Proof.
  intros Hdefault id m' Hm'.
  destruct (lookup_invalidate_Some _ _ _ _ Hm') as (m & Hm & Hclass & _).
  rewrite Hclass. by eapply Hdefault.
Qed.

Lemma AnalysisMap_eq am am' :
  AnalysisMap.ir am = AnalysisMap.ir am' ->
  (forall id, AnalysisMap.analyses am !! id = AnalysisMap.analyses am' !! id) ->
  am = am'.
Proof.
  destruct am, am'; simpl. intros -> Hlookup. f_equal. by apply map_eq.
Qed.

(** X6: on a map whose classes all use the default [isInvalidated],
    [invalidate(pa)] leaves exactly the entries whose id is in [pa]. *)
Theorem invalidate_default_is_filter pa am :
  keyed am -> all_default am ->
  AnalysisMap.analyses (AnalysisMap.invalidate pa am)
  = filter (fun kv => kv.1 ∈ PreservedAnalyses.preservedIDs pa)
      (AnalysisMap.analyses am).
Proof.
  intros Hkeyed Hdefault. apply map_eq. intros id.
  rewrite (lookup_invalidate_default _ _ _ Hkeyed Hdefault), map_lookup_filter.
  destruct (AnalysisMap.analyses am !! id) as [m|]; simpl; [|done].
  case_bool_decide; by case_guard.
Qed.

(** X7: on such a map, [invalidate] with a set on which nothing was
    preserved does what [clear] does. *)
Theorem invalidate_nothing_preserved_is_clear am :
  keyed am -> all_default am ->
  AnalysisMap.invalidate PreservedAnalyses.fresh am = AnalysisMap.clear am.
Proof.
  intros Hkeyed Hdefault. apply AnalysisMap_eq; [done|]. intros id.
  rewrite (lookup_invalidate_default _ _ _ Hkeyed Hdefault). simpl.
  rewrite lookup_empty. destruct (AnalysisMap.analyses am !! id); [|done].
  by rewrite bool_decide_eq_false_2 by apply not_elem_of_empty.
Qed.

(** X8: on such a map, invalidating twice with the same set is invalidating
    once, and two invalidations can be made in either order. *)
Theorem invalidate_default_composes pa1 pa2 am :
  keyed am -> all_default am ->
  AnalysisMap.invalidate pa1 (AnalysisMap.invalidate pa1 am)
  = AnalysisMap.invalidate pa1 am
  /\ AnalysisMap.invalidate pa2 (AnalysisMap.invalidate pa1 am)
     = AnalysisMap.invalidate pa1 (AnalysisMap.invalidate pa2 am).
Proof.
  intros Hkeyed Hdefault.
  assert (forall pa pa' id,
            AnalysisMap.analyses (AnalysisMap.invalidate pa' (AnalysisMap.invalidate pa am))
              !! id
            = match AnalysisMap.analyses am !! id with
              | Some m =>
                  if bool_decide (id ∈ PreservedAnalyses.preservedIDs pa)
                     && bool_decide (id ∈ PreservedAnalyses.preservedIDs pa')
                  then Some m else None
              | None => None
              end) as Htwice.
  { intros pa pa' id.
    rewrite (lookup_invalidate_default pa' _ _ (invalidate_keeps_keyed pa _ Hkeyed)
               (invalidate_keeps_default pa _ Hdefault)).
    rewrite (lookup_invalidate_default _ _ _ Hkeyed Hdefault).
    destruct (AnalysisMap.analyses am !! id); [|done].
    by destruct (bool_decide (id ∈ PreservedAnalyses.preservedIDs pa)),
         (bool_decide (id ∈ PreservedAnalyses.preservedIDs pa')). }
  split; apply AnalysisMap_eq; try done; intros id; rewrite !Htwice.
  - rewrite (lookup_invalidate_default _ _ _ Hkeyed Hdefault).
    destruct (AnalysisMap.analyses am !! id); [|done].
    by destruct (bool_decide _).
  - destruct (AnalysisMap.analyses am !! id); [|done].
    by rewrite andb_comm.
Qed.

End InvalidateMore.

(** ** The analyses of one operation: what every sequence of calls keeps *)

Section MapSequenceFacts.
Context `{AnalysisClasses}.

Lemma map_run_cons pi c cs st :
  map_run pi (c :: cs) st = map_run pi cs (map_step pi c st).
Proof. reflexivity. Qed.

(** The map and the world after [getAnalysis], by cases. *)
Lemma map_step_getAnalysis pi T am w :
  map_step pi (MapGetAnalysis T) (am, w)
  = match AnalysisMap.analyses am !! TypeID_get T with
    | Some _ => (am, w)
    | None =>
        ({| AnalysisMap.ir := AnalysisMap.ir am;
            AnalysisMap.analyses :=
              <[ TypeID_get T := constructed T am w ]> (AnalysisMap.analyses am) |},
         {| next_addr := S (next_addr w);
            events :=
              events w ++
              match pi with
              | Some _ => instrumented (T, AnalysisMap.ir am, next_addr w)
              | None => [Constructed T (AnalysisMap.ir am) (next_addr w)]
              end |})
    end.
Proof.
  unfold map_step; simpl.
  destruct (AnalysisMap.analyses am !! TypeID_get T) as [m|] eqn:Hm.
  - by rewrite (getAnalysis_hit _ _ _ _ _ Hm).
  - by rewrite (getAnalysis_miss _ _ _ _ Hm).
Qed.

Lemma map_step_keyed pi c am w :
  keyed am ->
  keyed (map_step pi c (am, w)).1
  /\ AnalysisMap.ir (map_step pi c (am, w)).1 = AnalysisMap.ir am.
Proof.
  intros Hkeyed. destruct c as [T|T|pa|].
  - rewrite map_step_getAnalysis.
    destruct (AnalysisMap.analyses am !! TypeID_get T); [done|].
    split; [|done]. intros id m; simpl.
    destruct (decide (id = TypeID_get T)) as [->|Hne].
    + rewrite lookup_insert_eq. by intros [= <-].
    + rewrite lookup_insert_ne by done. apply Hkeyed.
  - done.
  - split; [|done]. by apply invalidate_keeps_keyed.
  - split; [|done]. intros id m; simpl. by rewrite lookup_empty.
Qed.

Lemma map_run_keyed pi cs : forall am w,
  keyed am ->
  keyed (map_run pi cs (am, w)).1
  /\ AnalysisMap.ir (map_run pi cs (am, w)).1 = AnalysisMap.ir am.
Proof.
  induction cs as [|c cs IH]; intros am w Hkeyed; [done|].
  rewrite map_run_cons.
  destruct (map_step_keyed pi c am w Hkeyed) as [Hkeyed' Hir].
  destruct (map_step pi c (am, w)) as [am' w'].
  destruct (IH am' w' Hkeyed') as [? Hir']. split; [done|]. by rewrite Hir'.
Qed.

(** X9: whatever is called on the map made for [op], every entry is a model
    of the class whose id it is stored under, so that [getCachedAnalysis<T>]
    returns the analysis of an [AnalysisModel<T>]; no entry is stored under
    the id of [AllAnalysesType]; and the map is still the map of [op]. *)
Theorem map_stays_keyed pi cs op w :
  keyed (map_run pi cs (AnalysisMap.create op, w)).1
  /\ (forall T r,
        AnalysisMap.getCachedAnalysis T (map_run pi cs (AnalysisMap.create op, w)).1
        = Some r ->
        exists m, holds (map_run pi cs (AnalysisMap.create op, w)).1 T m
                  /\ AnalysisMap.ref m = r)
  /\ AnalysisMap.analyses (map_run pi cs (AnalysisMap.create op, w)).1
       !! AllAnalysesType = None
  /\ AnalysisMap.getOperation (map_run pi cs (AnalysisMap.create op, w)).1 = op.
Proof.
  assert (keyed (AnalysisMap.create op)) as Hempty.
  { intros id m; simpl. by rewrite lookup_empty. }
  destruct (map_run_keyed pi cs _ w Hempty) as [Hkeyed Hir].
  split; [done|]. split; [|split; [|done]].
  - intros T r. unfold AnalysisMap.getCachedAnalysis, holds.
    destruct (AnalysisMap.analyses _ !! TypeID_get T) as [m|] eqn:Hm; [|done].
    intros [= <-]. exists m. split; [|done]. split; [done|].
    apply Hkeyed in Hm. by injection Hm as ->.
  - destruct (AnalysisMap.analyses _ !! AllAnalysesType) as [m|] eqn:Hm; [|done].
    by apply Hkeyed in Hm.
Qed.




Lemma map_step_events_without_instrumentor c am w :
  exists new,
    events (map_step None c (am, w)).2 = events w ++ new
    /\ Forall (fun e => is_notification e = false) new
    /\ next_addr (map_step None c (am, w)).2 = next_addr w + length new.
Proof.
  assert (exists new : list Event,
            events w = events w ++ new
            /\ Forall (fun e => is_notification e = false) new
            /\ next_addr w = next_addr w + length new) as Hsame.
  { exists []. rewrite app_nil_r. split; [done|]. split; [constructor|simpl; lia]. }
  destruct c as [T|T|pa|]; try exact Hsame.
  rewrite map_step_getAnalysis.
  destruct (AnalysisMap.analyses am !! TypeID_get T); [exact Hsame|].
  eexists. split; [reflexivity|]. split; [by repeat constructor|simpl; lia].
Qed.

(** X11: when the instrumentor is null no call of the map notifies anybody:
    the only events a sequence of calls adds are the constructions, one for
    each model allocated. *)
Theorem no_notification_without_instrumentor cs am w :
  events (map_run None cs (am, w)).2
  = events w ++ drop (length (events w)) (events (map_run None cs (am, w)).2)
  /\ Forall (fun e => is_notification e = false)
       (drop (length (events w)) (events (map_run None cs (am, w)).2))
  /\ length (drop (length (events w)) (events (map_run None cs (am, w)).2))
     = next_addr (map_run None cs (am, w)).2 - next_addr w.
Proof.
  assert (exists new,
            events (map_run None cs (am, w)).2 = events w ++ new
            /\ Forall (fun e => is_notification e = false) new
            /\ next_addr (map_run None cs (am, w)).2 = next_addr w + length new)
    as (new & Hev & Hnew & Haddr).
  { revert am w. induction cs as [|c cs IH]; intros am w.
    - exists []. rewrite app_nil_r. split; [done|]. split; [constructor|simpl; lia].
    - rewrite map_run_cons.
      destruct (map_step_events_without_instrumentor c am w)
        as (new1 & Hev1 & Hnew1 & Haddr1).
      destruct (map_step None c (am, w)) as [am' w']; simpl in *.
      destruct (IH am' w') as (new2 & Hev2 & Hnew2 & Haddr2).
      exists (new1 ++ new2). rewrite Hev2, Hev1, Haddr2, Haddr1, length_app, app_assoc.
      split; [done|]. split; [by apply Forall_app|lia]. }
  rewrite Hev, drop_app_length. split; [done|]. split; [done|lia].
Qed.

End MapSequenceFacts.

(** ** A manager, its parents and its children *)

Section RelativesFacts.
Context `{AnalysisClasses} `{OperationTree}.
Import NestedAnalysisMap.

(** The maps above a map of the tree are in the tree. *)
Lemma lookup_node_above q r t n :
  lookup_node (q ++ r) t = Some n -> is_Some (lookup_node q t).
Proof.
  rewrite lookup_node_app. by destruct (lookup_node q t); [eexists|].
Qed.

(** X12: asking a manager for what is cached for a child operation is asking
    the manager of that child: when the child has a map,
    [getCachedChildAnalysis<T>(op)] returns what [getCachedAnalysis<T>()]
    returns through a manager that points to that map. *)
Theorem getCachedChildAnalysis_is_child_getCachedAnalysis T op am s n child :
  lookup_node (AnalysisManager.impl am) (root s) = Some n ->
  getParentOp op = Some (getOperation n) ->
  childAnalyses n !! op = Some child ->
  AnalysisManager.getCachedChildAnalysis T op am s
  = AnalysisManager.getCachedAnalysis T
      (AnalysisManager.Build (AnalysisManager.impl am ++ [op])) s.
Proof.
  intros Hn Hparent Hchild.
  rewrite getCachedChildAnalysis_unfold, getCachedAnalysis_unfold, Hn. simpl.
  rewrite lookup_node_app, Hn. simpl. rewrite Hchild.
  by rewrite bool_decide_eq_true_2.
Qed.

(** X13: through a manager that points to a map, [getCachedChildAnalysis]
    stops at its [assert] exactly when the parent of the operation asked
    about is not the operation of the manager; then nothing is looked up. *)
Theorem getCachedChildAnalysis_asserts_parent T op am s n :
  lookup_node (AnalysisManager.impl am) (root s) = Some n ->
  (AnalysisManager.getCachedChildAnalysis T op am s = Fails AssertionFailure
   <-> getParentOp op ≠ Some (getOperation n))
  /\ (forall f, AnalysisManager.getCachedChildAnalysis T op am s = Fails f ->
                f = AssertionFailure).
Proof.
  intros Hn. rewrite getCachedChildAnalysis_unfold, Hn.
  case_bool_decide as Hparent.
  - split; [|done]. split; [done|]. intros Hne. by destruct Hne.
  - split; [done|]. by intros f [= <-].
Qed.

(** One turn of the loop of [getCachedParentAnalysis]: from a map with a
    parent, the parent answers or is asked in turn. *)
Lemma getCachedParentAnalysis_step T parentOp p op s n :
  lookup_node p (root s) = Some n ->
  is_Some (lookup_node (p ++ [op]) (root s)) ->
  AnalysisManager.getCachedParentAnalysis T parentOp (AnalysisManager.Build (p ++ [op])) s
  = if bool_decide (getOperation n = parentOp)
    then Returns (AnalysisMap.getCachedAnalysis T (analyses n)) s
    else AnalysisManager.getCachedParentAnalysis T parentOp (AnalysisManager.Build p) s.
Proof.
  intros Hn [child Hchild].
  unfold AnalysisManager.getCachedParentAnalysis, AnalysisManager.deref, bind, ret.
  simpl. fold (root s). rewrite Hchild, Hn, rev_unit. simpl.
  rewrite rev_involutive.
  unfold AnalysisManager.deref, bind, ret. simpl. fold (root s). rewrite Hn.
  by destruct (bool_decide _).
Qed.

Lemma getCachedParentAnalysis_top T parentOp s :
  AnalysisManager.getCachedParentAnalysis T parentOp AnalysisManager.of_module s
  = Returns None s.
Proof. reflexivity. Qed.

(** X14: [getCachedParentAnalysis] through a manager that points to a map
    always returns, and the state after it is the state before it; through
    the manager of the module, which has no parent, it returns [None]. *)
Theorem getCachedParentAnalysis_reads_only T parentOp am s :
  is_Some (lookup_node (AnalysisManager.impl am) (root s)) ->
  (exists r, AnalysisManager.getCachedParentAnalysis T parentOp am s = Returns r s)
  /\ AnalysisManager.getCachedParentAnalysis T parentOp AnalysisManager.of_module s
     = Returns None s.
Proof.
  intros Hlive. split; [|apply getCachedParentAnalysis_top].
  destruct am as [p]; simpl in Hlive.
  induction p as [|op p IH] using rev_ind.
  - exists None. apply getCachedParentAnalysis_top.
  - destruct Hlive as [child Hchild].
    destruct (lookup_node_above _ _ _ _ Hchild) as [n Hn].
    rewrite (getCachedParentAnalysis_step _ _ _ _ _ _ Hn) by by eexists.
    destruct (bool_decide _); [by eexists|]. apply IH. by eexists.
Qed.

(** X15: the answer of [getCachedParentAnalysis<T>(parentOp)] through the
    manager of a nested map: when the operation of the parent map is
    [parentOp], what [getCachedAnalysis<T>()] returns through the parent's
    manager; otherwise what [getCachedParentAnalysis<T>(parentOp)] returns
    through the parent's manager.  So the nearest ancestor for [parentOp]
    answers, from its cache. *)
Theorem getCachedParentAnalysis_nearest_ancestor T parentOp p op s n :
  lookup_node p (root s) = Some n ->
  is_Some (lookup_node (p ++ [op]) (root s)) ->
  AnalysisManager.getCachedParentAnalysis T parentOp (AnalysisManager.Build (p ++ [op])) s
  = if bool_decide (getOperation n = parentOp)
    then AnalysisManager.getCachedAnalysis T (AnalysisManager.Build p) s
    else AnalysisManager.getCachedParentAnalysis T parentOp (AnalysisManager.Build p) s.
Proof.
  intros Hn Hchild. rewrite (getCachedParentAnalysis_step _ _ _ _ _ _ Hn Hchild).
  rewrite getCachedAnalysis_unfold. simpl. by rewrite Hn.
Qed.

(** X16: when no map above the manager's map is the map of [parentOp],
    [getCachedParentAnalysis<T>(parentOp)] returns [None], also when the
    manager's own operation is [parentOp] and has [T] cached: the search
    starts at the parent. *)
Theorem getCachedParentAnalysis_not_an_ancestor T parentOp am s :
  is_Some (lookup_node (AnalysisManager.impl am) (root s)) ->
  (forall q r n,
     AnalysisManager.impl am = q ++ r -> r ≠ [] ->
     lookup_node q (root s) = Some n -> getOperation n ≠ parentOp) ->
  AnalysisManager.getCachedParentAnalysis T parentOp am s = Returns None s.
Proof.
  destruct am as [p]; simpl.
  induction p as [|op p IH] using rev_ind; intros Hlive Hnone.
  - apply getCachedParentAnalysis_top.
  - destruct Hlive as [child Hchild].
    destruct (lookup_node_above _ _ _ _ Hchild) as [n Hn].
    rewrite (getCachedParentAnalysis_step _ _ _ _ _ _ Hn) by by eexists.
    rewrite bool_decide_eq_false_2 by by apply (Hnone p [op]).
    apply IH; [by eexists|].
    intros q r n' -> Hr. apply (Hnone q (r ++ [op])).
    + by rewrite app_assoc.
    + by destruct r.
Qed.

End RelativesFacts.

(** ** What [getAnalysis] leaves alone, and what it does after [clear] *)

Section ComputeFacts.
Context `{AnalysisClasses} `{OperationTree}.
Import NestedAnalysisMap.

(** X17: [getAnalysis] through a manager that points to a map returns, and
    touches only the analyses of that map: the map keeps its children and
    every entry it had, every map below it is the map of before, the
    analyses of every other map are the analyses of before, no map is made
    or destroyed, and the instrumentor stays. *)
Theorem getAnalysis_only_own_analyses T am s n :
  lookup_node (AnalysisManager.impl am) (root s) = Some n ->
  exists r s',
    AnalysisManager.getAnalysis T am s = Returns r s'
    /\ childAnalyses <$> lookup_node (AnalysisManager.impl am) (root s')
       = Some (childAnalyses n)
    /\ (forall id m,
          entry_at (AnalysisManager.impl am) id s = Some m ->
          entry_at (AnalysisManager.impl am) id s' = Some m)
    /\ (forall r', r' ≠ [] ->
          lookup_node (AnalysisManager.impl am ++ r') (root s')
          = lookup_node (AnalysisManager.impl am ++ r') (root s))
    /\ (forall p, p ≠ AnalysisManager.impl am -> analyses_at p s' = analyses_at p s)
    /\ (forall p, is_Some (lookup_node p (root s')) <-> is_Some (lookup_node p (root s)))
    /\ ModuleAnalysisManager.passInstrumentor (mam s')
       = ModuleAnalysisManager.passInstrumentor (mam s).
Proof.
  intros Hn. rewrite getAnalysis_unfold, Hn.
  destruct (getAnalysis_entries T (ModuleAnalysisManager.passInstrumentor (mam s))
              (analyses n) (world s)) as (_ & _ & _ & Hkeeps).
  destruct (AnalysisMap.getAnalysis _ _ _ _) as [[r analyses'] w']; simpl in *.
  eexists _, _. split; [reflexivity|].
  assert (forall n0, childAnalyses (set_analyses analyses' n0) = childAnalyses n0)
    as Hchildren by done.
  unfold entry_at, analyses_at, with_root, root in *; simpl.
  split; [|split; [|split; [|split; [|split]]]].
  - by rewrite lookup_update_here, Hn.
  - intros id m. rewrite lookup_update_here, Hn. simpl. apply Hkeeps.
  - intros r' Hr'. by apply lookup_update_keeps_below.
  - intros p Hp. by apply lookup_update_other.
  - intros p.
    destruct (decide (p = AnalysisManager.impl am)) as [->|Hp].
    + rewrite lookup_update_here, Hn. simpl. split; by eexists.
    + rewrite <- !fmap_is_Some with (f := analyses).
      by rewrite lookup_update_other.
  - reflexivity.
Qed.

(** X18: after [clear] through a manager, [getAnalysis<T>()] through the
    same manager computes again: the analysis is built from the operation of
    the map, in a new model at the next free address, and the instrumentor,
    if there is one, is told before and after; whatever was cached for [T]
    before [clear] is not returned. *)
Theorem getAnalysis_after_clear T am s n :
  lookup_node (AnalysisManager.impl am) (root s) = Some n ->
  exists s1 s2,
    AnalysisManager.clear am s = Returns tt s1
    /\ AnalysisManager.getAnalysis T am s1
       = Returns (next_addr (world s), construct T (getOperation n)) s2
    /\ events_since s s2
       = match ModuleAnalysisManager.passInstrumentor (mam s) with
         | Some _ => instrumented (T, getOperation n, next_addr (world s))
         | None => [Constructed T (getOperation n) (next_addr (world s))]
         end
    /\ next_addr (world s2) = S (next_addr (world s)).
Proof.
  intros Hn. rewrite clear_unfold, Hn. eexists _. 
  set (s1 := with_root _ _ _).
  assert (lookup_node (AnalysisManager.impl am) (root s1) = Some (cleared n)) as Hn1.
  { unfold s1, with_root, root in *; simpl. by rewrite lookup_update_here, Hn. }
  assert (entry_at (AnalysisManager.impl am) (TypeID_get T) s1 = None) as Hmiss.
  { unfold entry_at. fold (root s1). rewrite Hn1. simpl. apply lookup_empty. }
  destruct (getAnalysis_computed T am s1 _ Hn1 Hmiss) as (s2 & Hget & _ & Haddr & Hev).
  exists s2. split; [reflexivity|]. split; [exact Hget|].
  split; [|exact Haddr].
  unfold events_since. change (events (world s1)) with (events (world s)) in Hev.
  by rewrite Hev, drop_app_length.
Qed.

End ComputeFacts.

(** ** A new module analysis manager *)

Section NewModuleFacts.
Context `{AnalysisClasses} `{OperationTree}.
Import NestedAnalysisMap.

(** X19: the manager of a newly made [ModuleAnalysisManager] points to the
    top-level map, which is the map of the module's operation; nothing is
    cached there, there is no map for any child and none above; and the
    first [getAnalysis<T>()] builds the analysis from the module's operation
    and tells the instrumentor the manager was made with, if any. *)
Theorem new_module_manager op pi w T :
  let s := {| mam := ModuleAnalysisManager.create op pi; world := w |} in
  lookup_node (AnalysisManager.impl AnalysisManager.of_module) (root s)
  = Some (NestedAnalysisMap.create op)
  /\ AnalysisManager.getCachedAnalysis T AnalysisManager.of_module s = Returns None s
  /\ (forall child,
        getParentOp child = Some op ->
        AnalysisManager.getCachedChildAnalysis T child AnalysisManager.of_module s
        = Returns None s)
  /\ (forall parentOp,
        AnalysisManager.getCachedParentAnalysis T parentOp AnalysisManager.of_module s
        = Returns None s)
  /\ exists s',
       AnalysisManager.getAnalysis T AnalysisManager.of_module s
       = Returns (next_addr w, construct T op) s'
       /\ events (world s')
          = events w ++ match pi with
                        | Some _ => instrumented (T, op, next_addr w)
                        | None => [Constructed T op (next_addr w)]
                        end.
Proof.
  intros s. split; [done|]. split; [done|]. split; [|split; [done|]].
  - intros child Hparent. rewrite getCachedChildAnalysis_unfold. simpl.
    rewrite bool_decide_eq_true_2 by done. by rewrite lookup_empty.
  - destruct (getAnalysis_computed T AnalysisManager.of_module s
                (NestedAnalysisMap.create op) eq_refl)
      as (s' & Hget & _ & _ & Hev); [done|].
    exists s'. split; [exact Hget|exact Hev].
Qed.

End NewModuleFacts.

(** ** The further properties on the example program *)

Section MoreExamples.
#[local] Existing Instance Example.classes.
#[local] Existing Instance Example.operations.
Import NestedAnalysisMap.

(** The analyses of the module in [Example.populated]. *)
Lemma populated_keyed : keyed (analyses (root Example.populated)).
Proof.
  intros id m Hm. unfold root, Example.populated in Hm; simpl in Hm.
  apply lookup_singleton_Some in Hm as [<- <-]. reflexivity.
Qed.

Lemma populated_all_default : all_default (analyses (root Example.populated)).
Proof.
  intros id m Hm. unfold root, Example.populated in Hm; simpl in Hm.
  apply lookup_singleton_Some in Hm as [<- <-]. reflexivity.
Qed.

Lemma invalidate_only_erases_witness :
  let pa := PreservedAnalyses.preserveT Example.Liveness PreservedAnalyses.fresh in
  let m := {| AnalysisModel.class := Example.Liveness; AnalysisModel.addr := 0;
              AnalysisModel.analysis := (Example.Liveness, Example.module) |} in
  exists m0,
    AnalysisMap.analyses (analyses (root Example.populated))
      !! TypeID_get Example.Liveness = Some m0
    /\ AnalysisModel.isInvalidated m0 pa = (false, m)
    /\ AnalysisModel.class m = AnalysisModel.class m0
    /\ AnalysisModel.addr m = AnalysisModel.addr m0.
Proof.
  intros pa m.
  exact (invalidate_only_erases pa (analyses (root Example.populated))
           (TypeID_get Example.Liveness) m eq_refl).
Defined.

Lemma invalidate_default_is_filter_witness :
  let pa := PreservedAnalyses.preserveT Example.CFG PreservedAnalyses.fresh in
  AnalysisMap.analyses (AnalysisMap.invalidate pa (analyses (root Example.populated)))
  = filter (fun kv => kv.1 ∈ PreservedAnalyses.preservedIDs pa)
      (AnalysisMap.analyses (analyses (root Example.populated))).
Proof.
  intros pa.
  exact (invalidate_default_is_filter pa _ populated_keyed populated_all_default).
Defined.

Lemma invalidate_nothing_preserved_is_clear_witness :
  AnalysisMap.invalidate PreservedAnalyses.fresh (analyses (root Example.populated))
  = AnalysisMap.clear (analyses (root Example.populated)).
Proof.
  exact (invalidate_nothing_preserved_is_clear _ populated_keyed populated_all_default).
Defined.

Lemma invalidate_default_composes_witness :
  let pa1 := PreservedAnalyses.preserveT Example.Liveness PreservedAnalyses.fresh in
  let pa2 := PreservedAnalyses.preserveT Example.CFG PreservedAnalyses.fresh in
  AnalysisMap.invalidate pa2
    (AnalysisMap.invalidate pa1 (analyses (root Example.populated)))
  = AnalysisMap.invalidate pa1
      (AnalysisMap.invalidate pa2 (analyses (root Example.populated))).
Proof.
  intros pa1 pa2.
  exact (proj2 (invalidate_default_composes pa1 pa2 _
                  populated_keyed populated_all_default)).
Defined.

Lemma getCachedChildAnalysis_is_child_getCachedAnalysis_witness :
  AnalysisManager.getCachedChildAnalysis Example.Liveness Example.func
    AnalysisManager.of_module Example.populated
  = AnalysisManager.getCachedAnalysis Example.Liveness
      (AnalysisManager.Build [Example.func]) Example.populated.
Proof.
  exact (getCachedChildAnalysis_is_child_getCachedAnalysis Example.Liveness
           Example.func AnalysisManager.of_module Example.populated
           (root Example.populated) _ eq_refl eq_refl eq_refl).
Defined.

Lemma getCachedChildAnalysis_asserts_parent_witness :
  AnalysisManager.getCachedChildAnalysis Example.Liveness Example.module
    AnalysisManager.of_module Example.populated = Fails AssertionFailure.
Proof.
  refine (proj2 (proj1 (getCachedChildAnalysis_asserts_parent Example.Liveness
                          Example.module AnalysisManager.of_module Example.populated
                          (root Example.populated) eq_refl)) _).
  discriminate.
Defined.

Lemma getCachedParentAnalysis_reads_only_witness :
  exists r,
    AnalysisManager.getCachedParentAnalysis Example.Liveness Example.module
      (AnalysisManager.Build [Example.func]) Example.populated
    = Returns r Example.populated.
Proof.
  refine (proj1 (getCachedParentAnalysis_reads_only Example.Liveness Example.module
                   (AnalysisManager.Build [Example.func]) Example.populated _)).
  eexists. reflexivity.
Defined.

Lemma getCachedParentAnalysis_nearest_ancestor_witness :
  AnalysisManager.getCachedParentAnalysis Example.Liveness Example.module
    (AnalysisManager.Build ([] ++ [Example.func])) Example.populated
  = AnalysisManager.getCachedAnalysis Example.Liveness (AnalysisManager.Build [])
      Example.populated.
Proof.
  refine (getCachedParentAnalysis_nearest_ancestor Example.Liveness Example.module
            [] Example.func Example.populated (root Example.populated) eq_refl _).
  eexists. reflexivity.
Defined.

Lemma getCachedParentAnalysis_not_an_ancestor_witness :
  AnalysisManager.getCachedAnalysis Example.Liveness
    (AnalysisManager.Build [Example.func]) Example.populated
  = Returns (Some (1, (Example.Liveness, Example.func))) Example.populated
  /\ AnalysisManager.getCachedParentAnalysis Example.Liveness Example.func
       (AnalysisManager.Build [Example.func]) Example.populated
     = Returns None Example.populated.
Proof.
  split; [reflexivity|].
  refine (getCachedParentAnalysis_not_an_ancestor Example.Liveness Example.func
            (AnalysisManager.Build [Example.func]) Example.populated _ _).
  - eexists. reflexivity.
  - intros [|o q] r n Heq Hr Hq; simpl in *.
    + injection Hq as <-. discriminate.
    + injection Heq as _ Heq. symmetry in Heq.
      apply app_eq_nil in Heq as [_ ->]. by destruct Hr.
Defined.

Lemma getAnalysis_only_own_analyses_witness :
  exists r s',
    AnalysisManager.getAnalysis Example.CFG AnalysisManager.of_module Example.populated
    = Returns r s'
    /\ analyses_at [Example.func] s' = analyses_at [Example.func] Example.populated.
Proof.
  destruct (getAnalysis_only_own_analyses Example.CFG AnalysisManager.of_module
              Example.populated (root Example.populated) eq_refl)
    as (r & s' & Hget & _ & _ & _ & Hothers & _).
  exists r, s'. split; [exact Hget|]. apply Hothers. discriminate.
Defined.

Lemma getAnalysis_after_clear_witness :
  exists s1 s2,
    AnalysisManager.clear AnalysisManager.of_module Example.populated = Returns tt s1
    /\ AnalysisManager.getAnalysis Example.Liveness AnalysisManager.of_module s1
       = Returns (2, (Example.Liveness, Example.module)) s2.
Proof.
  destruct (getAnalysis_after_clear Example.Liveness AnalysisManager.of_module
              Example.populated (root Example.populated) eq_refl)
    as (s1 & s2 & Hclear & Hget & _).
  exists s1, s2. split; [exact Hclear|exact Hget].
Defined.

End MoreExamples.
